(** * obs-websocket client: a shallow embedding of the session core

    The development follows the TypeScript sources:
    - [utils/crypto]        : [generateAuth] (SHA-256 and base64 are the
                              platform's [crypto.subtle.digest] and [btoa]);
    - [utils/event-emitter] : [EventEmitter] ([on], [once], [off], [emit]);
    - [obs-websocket]       : [OBSWebSocket] (handshake, request correlation,
                              batches, teardown, reconnect timer).

    Conventions.  A JavaScript string is represented by the bytes of its
    UTF-8 encoding (Rocq's [string]), so [TextEncoder.encode] is the list of
    these bytes.  JSON numbers are integers ([Z]).  Stateful code is written
    in a state-and-exception monad over the record [OBSWebSocket]. *)

From Stdlib Require Import ZArith List String Ascii Lia Bool.
From stdpp Require Import base option list gmap strings pretty.

Import ListNotations.

(* ===================================================================== *)
(** * Platform primitives used by [generateAuth] *)
(* ===================================================================== *)

Module Crypto.

Local Open Scope Z_scope.

(** ** 32-bit words, as [Z] with the wrap-around written out *)

Definition w32 (x : Z) : Z := x mod 2 ^ 32.
Definition add32 (x y : Z) : Z := w32 (x + y).
Definition rotr (n x : Z) : Z :=
  w32 (Z.lor (Z.shiftr x n) (Z.shiftl x (32 - n))).
Definition not32 (x : Z) : Z := Z.lxor x 0xffffffff.

Definition Ch (x y z : Z) : Z := Z.lxor (Z.land x y) (Z.land (not32 x) z).
Definition Maj (x y z : Z) : Z :=
  Z.lxor (Z.lxor (Z.land x y) (Z.land x z)) (Z.land y z).
Definition Sigma0 (x : Z) : Z := Z.lxor (Z.lxor (rotr 2 x) (rotr 13 x)) (rotr 22 x).
Definition Sigma1 (x : Z) : Z := Z.lxor (Z.lxor (rotr 6 x) (rotr 11 x)) (rotr 25 x).
Definition sigma0 (x : Z) : Z := Z.lxor (Z.lxor (rotr 7 x) (rotr 18 x)) (Z.shiftr x 3).
Definition sigma1 (x : Z) : Z := Z.lxor (Z.lxor (rotr 17 x) (rotr 19 x)) (Z.shiftr x 10).

(** Round constants and initial hash value, as FIPS 180-4 defines them:
    the first 32 bits of the fractional parts of the cube roots of the
    first 64 primes, and of the square roots of the first 8. *)
Definition is_prime (p : Z) : bool :=
  forallb (fun d => negb (p mod d =? 0)) (map Z.of_nat (seq 2 (Z.to_nat p - 2))).

Definition primes (n : nat) : list Z :=
  firstn n (List.filter is_prime (map Z.of_nat (seq 2 310))).

(** The largest [r] below [2 ^ bits] whose cube is at most [n]. *)
Definition cbrt (bits : nat) (n : Z) : Z :=
  fold_left (fun r b => let r' := r + 2 ^ Z.of_nat b in
                        if r' ^ 3 <=? n then r' else r)
            (rev (seq 0 bits)) 0.

Definition K256 : list Z :=
  Eval cbv in map (fun p => w32 (cbrt 35 (p * 2 ^ 96))) (primes 64).

Definition H256 : list Z :=
  Eval cbv in map (fun p => w32 (Z.sqrt (p * 2 ^ 64))) (primes 8).

(** ** Padding and parsing into 16-word blocks *)

Definition be_bytes (n : nat) (x : Z) : list Z :=
  map (fun i => Z.land (Z.shiftr x (8 * Z.of_nat i)) 0xff) (rev (seq 0 n)).

Definition pad (msg : list Z) : list Z :=
  let len := Z.of_nat (length msg) in
  let zeros := Z.to_nat ((55 - len) mod 64) in
  msg ++ [0x80] ++ repeat 0 zeros ++ be_bytes 8 (8 * len).

Fixpoint be_words (bs : list Z) : list Z :=
  match bs with
  | b0 :: b1 :: b2 :: b3 :: rest =>
      Z.lor (Z.shiftl b0 24) (Z.lor (Z.shiftl b1 16) (Z.lor (Z.shiftl b2 8) b3))
      :: be_words rest
  | _ => []
  end.

Fixpoint blocks (n : nat) (ws : list Z) : list (list Z) :=
  match n with
  | O => []
  | S n' => firstn 16 ws :: blocks n' (skipn 16 ws)
  end.

(** ** Message schedule and compression *)

(** [w] holds the sixteen most recent schedule words, oldest first. *)
Fixpoint schedule (n : nat) (w : list Z) : list Z :=
  match n with
  | O => []
  | S n' =>
      let wt := add32 (add32 (sigma1 (nth 14 w 0)) (nth 9 w 0))
                      (add32 (sigma0 (nth 1 w 0)) (nth 0 w 0)) in
      wt :: schedule n' (tl w ++ [wt])
  end.

Record regs := Regs { ra : Z; rb : Z; rc : Z; rd : Z; re : Z; rf : Z; rg : Z; rh : Z }.

Definition round (r : regs) (kw : Z * Z) : regs :=
  let '(k, w) := kw in
  let t1 := add32 (add32 (add32 (rh r) (Sigma1 (re r))) (Ch (re r) (rf r) (rg r)))
                  (add32 k w) in
  let t2 := add32 (Sigma0 (ra r)) (Maj (ra r) (rb r) (rc r)) in
  Regs (add32 t1 t2) (ra r) (rb r) (rc r) (add32 (rd r) t1) (re r) (rf r) (rg r).

Definition regs_of (h : list Z) : regs :=
  Regs (nth 0 h 0) (nth 1 h 0) (nth 2 h 0) (nth 3 h 0)
       (nth 4 h 0) (nth 5 h 0) (nth 6 h 0) (nth 7 h 0).

Definition list_of (r : regs) : list Z :=
  [ra r; rb r; rc r; rd r; re r; rf r; rg r; rh r].

Definition compress (h : list Z) (block : list Z) : list Z :=
  let w := block ++ schedule 48 block in
  let r := fold_left round (combine K256 w) (regs_of h) in
  map (fun p => add32 (fst p) (snd p)) (combine h (list_of r)).

(** [crypto.subtle.digest('SHA-256', bytes)]: the 32 bytes of the digest. *)
Definition sha256 (msg : list Z) : list Z :=
  let ws := be_words (pad msg) in
  let h := fold_left compress (blocks (length ws / 16) ws) H256 in
  concat (map (be_bytes 4) h).

(** ** base64 ([btoa] of a string of code units below 256) *)

Definition b64_alphabet : string :=
  "ABCDEFGHIJKLMNOPQRSTUVWXYZabcdefghijklmnopqrstuvwxyz0123456789+/".

Definition b64_char (i : Z) : ascii :=
  match String.get (Z.to_nat i) b64_alphabet with
  | Some c => c
  | None => "="%char
  end.

Fixpoint b64_groups (n : nat) (bs : list Z) : list ascii :=
  match n with
  | O => []
  | S n' =>
      match bs with
      | [] => []
      | [b0] =>
          [ b64_char (Z.shiftr b0 2);
            b64_char (Z.shiftl (Z.land b0 3) 4);
            "="%char; "="%char ]
      | [b0; b1] =>
          [ b64_char (Z.shiftr b0 2);
            b64_char (Z.lor (Z.shiftl (Z.land b0 3) 4) (Z.shiftr b1 4));
            b64_char (Z.shiftl (Z.land b1 15) 2);
            "="%char ]
      | b0 :: b1 :: b2 :: rest =>
          [ b64_char (Z.shiftr b0 2);
            b64_char (Z.lor (Z.shiftl (Z.land b0 3) 4) (Z.shiftr b1 4));
            b64_char (Z.lor (Z.shiftl (Z.land b1 15) 2) (Z.shiftr b2 6));
            b64_char (Z.land b2 63) ]
          ++ b64_groups n' rest
      end
  end.

(** [btoa(String.fromCharCode(...new Uint8Array(hash)))]. *)
Definition base64 (bs : list Z) : string :=
  string_of_list_ascii (b64_groups (length bs) bs).

(** [new TextEncoder().encode(s)]. *)
Definition encode (s : string) : list Z :=
  map (fun c => Z.of_N (N_of_ascii c)) (list_ascii_of_string s).

End Crypto.

(* ===================================================================== *)
(** * utils/crypto *)
(* ===================================================================== *)

(** [generateAuth(password, salt, challenge)], statement by statement. *)
Definition generateAuth (password salt challenge : string) : string :=
  let secretHash := Crypto.sha256 (Crypto.encode (password +:+ salt)) in
  let base64Secret := Crypto.base64 secretHash in
  let authHash := Crypto.sha256 (Crypto.encode (base64Secret +:+ challenge)) in
  Crypto.base64 authHash.

(** The protocol's reference algorithm, in the words of the specification:
    [secret = base64(SHA256(password ‖ salt))] and
    [response = base64(SHA256(secret ‖ challenge))]. *)
Definition reference_secret (password salt : string) : string :=
  Crypto.base64 (Crypto.sha256 (Crypto.encode password ++ Crypto.encode salt)).
Definition reference_response (password salt challenge : string) : string :=
  Crypto.base64
    (Crypto.sha256 (Crypto.encode (reference_secret password salt)
                    ++ Crypto.encode challenge)).

Definition hex (bs : list Z) : string :=
  let digit (i : Z) : ascii :=
    match String.get (Z.to_nat i) "0123456789abcdef" with
    | Some c => c | None => "?"%char end in
  string_of_list_ascii
    (concat (map (fun b => [digit (Z.shiftr b 4); digit (Z.land b 15)]) bs)).
Arguments hex bs%_Z.

(* ===================================================================== *)
(** * JavaScript values *)
(* ===================================================================== *)

(** Error objects the client creates or receives from the platform.
    [OBSRequestError] carries the three public fields of the class. *)
Inductive ErrorObj :=
| Error (message : string)
| TypeError (message : string)
| SyntaxError (message : string)
| RangeError (message : string)
| OBSRequestError (code : Z) (comment requestType : string).

(** What a variable of type [any] can hold: [undefined], the values
    [JSON.parse] builds, and error objects. *)
#[warnings="-register-all"]
Inductive JS :=
| JUndefined
| JNull
| JBool (b : bool)
| JNum (n : Z)
| JStr (s : string)
| JArr (items : list JS)
| JObj (fields : list (string * JS))
| JErr (e : ErrorObj).

Definition dquote : ascii := ascii_of_nat 34.

(** The message the constructor passes to [super], a template literal over
    [requestType], [comment] and [code], and [this.name]. *)
Definition error_message (e : ErrorObj) : string :=
  match e with
  | Error m | TypeError m | SyntaxError m | RangeError m => m
  | OBSRequestError code comment requestType =>
      "OBS request " +:+ String dquote requestType
      +:+ String dquote (" failed: " +:+ comment
      +:+ " (code: " +:+ pretty code +:+ ")")
  end.

Definition error_name (e : ErrorObj) : string :=
  match e with
  | Error _ => "Error"
  | TypeError _ => "TypeError"
  | SyntaxError _ => "SyntaxError"
  | RangeError _ => "RangeError"
  | OBSRequestError _ _ _ => "OBSRequestError"
  end.

(** Truthiness, as used by [if], [&&], [||] and [!]. *)
Definition truthy (v : JS) : bool :=
  match v with
  | JUndefined | JNull | JBool false | JNum 0%Z | JStr EmptyString => false
  | _ => true
  end.

Definition truthy_string (s : string) : bool :=
  match s with EmptyString => false | _ => true end.

(** An optional parameter or field: absent is [undefined]. *)
Definition truthy_opt (o : option string) : bool :=
  match o with Some s => truthy_string s | None => false end.

Definition or_undefined (o : option JS) : JS := default JUndefined o.

Fixpoint assoc (k : string) (fields : list (string * JS)) : JS :=
  match fields with
  | [] => JUndefined
  | (k', v) :: rest => if String.eqb k k' then v else assoc k rest
  end.

Definition join (sep : string) (parts : list string) : string :=
  match parts with
  | [] => ""
  | p :: ps => fold_left (fun acc q => acc +:+ sep +:+ q) ps p
  end.

(** The string a value contributes to a [+] with a string. *)
Fixpoint toString (v : JS) : string :=
  match v with
  | JUndefined => "undefined"
  | JNull => "null"
  | JBool true => "true"
  | JBool false => "false"
  | JNum n => pretty n
  | JStr s => s
  | JArr items =>
      join "," (map (fun i => match i with
                              | JUndefined | JNull => ""
                              | _ => toString i
                              end) items)
  | JObj _ => "[object Object]"
  | JErr e =>
      match error_message e with
      | EmptyString => error_name e
      | m => error_name e +:+ ": " +:+ m
      end
  end.

(* ===================================================================== *)
(** * types/protocol *)
(* ===================================================================== *)

Record Authentication := { challenge : string; salt : string }.

Record HelloMessage := {
  obsWebSocketVersion : string;
  hello_rpcVersion : Z;
  authentication : option Authentication }.

(** [rpcVersion] is whatever [hello.d.rpcVersion] evaluated to. *)
Record IdentifyMessage := {
  identify_rpcVersion : JS;
  identify_authentication : option string;
  identify_eventSubscriptions : option Z }.

Record IdentifiedMessage := { negotiatedRpcVersion : Z }.

Record ReidentifyMessage := { reidentify_eventSubscriptions : option Z }.

Record EventMessage := {
  eventType : string;
  eventIntent : Z;
  eventData : option JS }.

Record RequestMessage := {
  request_requestType : string;
  request_requestId : string;
  request_requestData : option JS }.

Record RequestStatus := { result : bool; code : Z; comment : option string }.

Record RequestResponseMessage := {
  response_requestType : string;
  response_requestId : string;
  requestStatus : RequestStatus;
  responseData : option JS }.

Record BatchRequest := {
  member_requestType : string;
  member_requestId : option string;
  member_requestData : option JS }.

Record RequestBatchMessage := {
  batch_requestId : string;
  haltOnFailure : option bool;
  executionType : option Z;
  requests : list BatchRequest }.

Record BatchResult := {
  result_requestType : string;
  result_requestStatus : RequestStatus;
  result_responseData : option JS }.

Record RequestBatchResponseMessage := {
  batchResponse_requestId : string;
  results : list BatchResult }.

Inductive WebSocketMessage :=
| Hello (d : HelloMessage)
| Identify (d : IdentifyMessage)
| Identified (d : IdentifiedMessage)
| Reidentify (d : ReidentifyMessage)
| Event (d : EventMessage)
| Request (d : RequestMessage)
| RequestResponse (d : RequestResponseMessage)
| RequestBatch (d : RequestBatchMessage)
| RequestBatchResponse (d : RequestBatchResponseMessage).

Definition OpCode (m : WebSocketMessage) : Z :=
  match m with
  | Hello _ => 0 | Identify _ => 1 | Identified _ => 2 | Reidentify _ => 3
  | Event _ => 5 | Request _ => 6 | RequestResponse _ => 7
  | RequestBatch _ => 8 | RequestBatchResponse _ => 9
  end.

Definition EventSubscription_All : Z := Z.shiftl 1 11 - 1.

(** The objects a listener receives for a Hello and an Identified frame:
    the parsed message itself. *)
Definition js_of_hello (h : HelloMessage) : JS :=
  JObj [ ("op", JNum 0);
         ("d", JObj ([ ("obsWebSocketVersion", JStr (obsWebSocketVersion h));
                       ("rpcVersion", JNum (hello_rpcVersion h)) ]
                     ++ match authentication h with
                        | Some a =>
                            [ ("authentication",
                               JObj [ ("challenge", JStr (challenge a));
                                      ("salt", JStr (salt a)) ]) ]
                        | None => []
                        end)) ].

Definition js_of_identified (m : IdentifiedMessage) : JS :=
  JObj [ ("op", JNum 2);
         ("d", JObj [ ("negotiatedRpcVersion", JNum (negotiatedRpcVersion m)) ]) ].

(** What [JSON.parse(event.data)] yields on an inbound frame: a syntax
    error, a message of the protocol, or an object with another opcode. *)
Inductive MessageEvent :=
| InvalidJSON (reason : string)
| ParsedMessage (m : WebSocketMessage)
| ParsedOther (op : JS).

(* ===================================================================== *)
(** * The instance and the world around it *)
(* ===================================================================== *)

(** Function values stored in the listener registry.  A listener passed in
    by a caller is known by an identity; the closures the client itself
    creates are listed with the variables they capture: the wrapper built
    by [once], the handler [connect] registers for [obs:Hello], and the two
    handlers [identify] registers for [obs:Identified] and [obs:error].

    The promise [identify] returns is awaited by the Hello handler alone,
    which passes its outcome on to [connect]'s [resolve] and [reject]; the
    closures therefore carry the index of the promise [connect] returned. *)
Inductive Listener :=
| UserListener (id : nat)
| OnceWrapper (wrapper : nat) (event : string) (listener : Listener)
| HelloHandler (password : option string) (promise : nat)
| IdentifiedHandler (promise : nat)
| ErrorHandler (promise : nat).

Global Instance Listener_eq_dec : EqDecision Listener.
Proof. solve_decision. Defined.

Inductive ReadyState := CONNECTING | OPEN | CLOSING | CLOSED.

Global Instance ReadyState_eq_dec : EqDecision ReadyState.
Proof. solve_decision. Defined.

(** A [WebSocket] object: what was sent on it and how [close] was called. *)
Record WebSocket := {
  url : string;
  readyState : ReadyState;
  sent : list WebSocketMessage;
  closeCalls : list (Z * string) }.

(** The state of a promise. *)
Inductive Settled :=
| Pending
| Fulfilled (value : JS)
| Rejected (reason : JS).

Inductive Level := LDebug | LInfo | LWarn | LError.

Record OBSWebSocketOptions := {
  eventSubscriptions : option Z;
  logger : Level -> bool }.

(** A timer made by [setTimeout]: its delay, and whether it is still to
    fire, has fired, or was cancelled by [clearTimeout]. *)
Inductive TimerState := Armed | Fired | Cleared.

Global Instance TimerState_eq_dec : EqDecision TimerState.
Proof. solve_decision. Defined.

(** An [identify] call suspended at [await generateAuth(...)]. *)
Record AuthTask := {
  task_message : IdentifyMessage;
  task_password : string;
  task_salt : JS;
  task_challenge : JS;
  task_promise : nat }.

(** The fields of the class (the first ten; [listeners] is inherited from
    [EventEmitter]) and the objects it refers to: sockets, promises, timers
    and suspended calls, each a heap indexed by creation order; then the
    counters of generated ids and of [once] wrappers; then what an observer
    sees: logger calls, [console.error] calls, the invocations of callers'
    listeners (event, listener, payload and the value thrown, if any) and
    [emit] calls. *)
Record OBSWebSocket := {
  listeners : gmap string (list Listener);
  ws : option nat;
  rpcVersion : Z;
  isConnected : bool;
  isIdentified : bool;
  pendingRequests : gmap string nat;
  options : OBSWebSocketOptions;
  reconnectTimer : option nat;
  reconnectDelay : Z;
  shouldReconnect : bool;
  sockets : list WebSocket;
  connects : list Settled;
  futures : list Settled;
  timers : list (Z * TimerState);
  awaiting : list (option AuthTask);
  nextRequestId : nat;
  nextWrapper : nat;
  logged : list (Level * string * list JS);
  console : list (string * JS);
  delivered : list (string * nat * JS * option JS);
  emitted : list (string * JS) }.

Definition maxReconnectDelay : Z := 30000.

Definition set_listeners (v : _) (s : OBSWebSocket) : OBSWebSocket :=
  {| listeners := v; ws := ws s; rpcVersion := rpcVersion s; isConnected :=
     isConnected s; isIdentified := isIdentified s; pendingRequests :=
     pendingRequests s; options := options s; reconnectTimer := reconnectTimer s;
     reconnectDelay := reconnectDelay s; shouldReconnect := shouldReconnect s;
     sockets := sockets s; connects := connects s; futures := futures s; timers
     := timers s; awaiting := awaiting s; nextRequestId := nextRequestId s;
     nextWrapper := nextWrapper s; logged := logged s; console := console s;
     delivered := delivered s; emitted := emitted s |}.
Definition set_ws (v : _) (s : OBSWebSocket) : OBSWebSocket :=
  {| listeners := listeners s; ws := v; rpcVersion := rpcVersion s;
     isConnected := isConnected s; isIdentified := isIdentified s;
     pendingRequests := pendingRequests s; options := options s; reconnectTimer
     := reconnectTimer s; reconnectDelay := reconnectDelay s; shouldReconnect :=
     shouldReconnect s; sockets := sockets s; connects := connects s; futures :=
     futures s; timers := timers s; awaiting := awaiting s; nextRequestId :=
     nextRequestId s; nextWrapper := nextWrapper s; logged := logged s; console
     := console s; delivered := delivered s; emitted := emitted s |}.
Definition set_rpcVersion (v : _) (s : OBSWebSocket) : OBSWebSocket :=
  {| listeners := listeners s; ws := ws s; rpcVersion := v; isConnected :=
     isConnected s; isIdentified := isIdentified s; pendingRequests :=
     pendingRequests s; options := options s; reconnectTimer := reconnectTimer s;
     reconnectDelay := reconnectDelay s; shouldReconnect := shouldReconnect s;
     sockets := sockets s; connects := connects s; futures := futures s; timers
     := timers s; awaiting := awaiting s; nextRequestId := nextRequestId s;
     nextWrapper := nextWrapper s; logged := logged s; console := console s;
     delivered := delivered s; emitted := emitted s |}.
Definition set_isConnected (v : _) (s : OBSWebSocket) : OBSWebSocket :=
  {| listeners := listeners s; ws := ws s; rpcVersion := rpcVersion s;
     isConnected := v; isIdentified := isIdentified s; pendingRequests :=
     pendingRequests s; options := options s; reconnectTimer := reconnectTimer s;
     reconnectDelay := reconnectDelay s; shouldReconnect := shouldReconnect s;
     sockets := sockets s; connects := connects s; futures := futures s; timers
     := timers s; awaiting := awaiting s; nextRequestId := nextRequestId s;
     nextWrapper := nextWrapper s; logged := logged s; console := console s;
     delivered := delivered s; emitted := emitted s |}.
Definition set_isIdentified (v : _) (s : OBSWebSocket) : OBSWebSocket :=
  {| listeners := listeners s; ws := ws s; rpcVersion := rpcVersion s;
     isConnected := isConnected s; isIdentified := v; pendingRequests :=
     pendingRequests s; options := options s; reconnectTimer := reconnectTimer s;
     reconnectDelay := reconnectDelay s; shouldReconnect := shouldReconnect s;
     sockets := sockets s; connects := connects s; futures := futures s; timers
     := timers s; awaiting := awaiting s; nextRequestId := nextRequestId s;
     nextWrapper := nextWrapper s; logged := logged s; console := console s;
     delivered := delivered s; emitted := emitted s |}.
Definition set_pendingRequests (v : _) (s : OBSWebSocket) : OBSWebSocket :=
  {| listeners := listeners s; ws := ws s; rpcVersion := rpcVersion s;
     isConnected := isConnected s; isIdentified := isIdentified s;
     pendingRequests := v; options := options s; reconnectTimer := reconnectTimer
     s; reconnectDelay := reconnectDelay s; shouldReconnect := shouldReconnect s;
     sockets := sockets s; connects := connects s; futures := futures s; timers
     := timers s; awaiting := awaiting s; nextRequestId := nextRequestId s;
     nextWrapper := nextWrapper s; logged := logged s; console := console s;
     delivered := delivered s; emitted := emitted s |}.
Definition set_reconnectTimer (v : _) (s : OBSWebSocket) : OBSWebSocket :=
  {| listeners := listeners s; ws := ws s; rpcVersion := rpcVersion s;
     isConnected := isConnected s; isIdentified := isIdentified s;
     pendingRequests := pendingRequests s; options := options s; reconnectTimer
     := v; reconnectDelay := reconnectDelay s; shouldReconnect := shouldReconnect
     s; sockets := sockets s; connects := connects s; futures := futures s;
     timers := timers s; awaiting := awaiting s; nextRequestId := nextRequestId
     s; nextWrapper := nextWrapper s; logged := logged s; console := console s;
     delivered := delivered s; emitted := emitted s |}.
Definition set_reconnectDelay (v : _) (s : OBSWebSocket) : OBSWebSocket :=
  {| listeners := listeners s; ws := ws s; rpcVersion := rpcVersion s;
     isConnected := isConnected s; isIdentified := isIdentified s;
     pendingRequests := pendingRequests s; options := options s; reconnectTimer
     := reconnectTimer s; reconnectDelay := v; shouldReconnect := shouldReconnect
     s; sockets := sockets s; connects := connects s; futures := futures s;
     timers := timers s; awaiting := awaiting s; nextRequestId := nextRequestId
     s; nextWrapper := nextWrapper s; logged := logged s; console := console s;
     delivered := delivered s; emitted := emitted s |}.
Definition set_shouldReconnect (v : _) (s : OBSWebSocket) : OBSWebSocket :=
  {| listeners := listeners s; ws := ws s; rpcVersion := rpcVersion s;
     isConnected := isConnected s; isIdentified := isIdentified s;
     pendingRequests := pendingRequests s; options := options s; reconnectTimer
     := reconnectTimer s; reconnectDelay := reconnectDelay s; shouldReconnect :=
     v; sockets := sockets s; connects := connects s; futures := futures s;
     timers := timers s; awaiting := awaiting s; nextRequestId := nextRequestId
     s; nextWrapper := nextWrapper s; logged := logged s; console := console s;
     delivered := delivered s; emitted := emitted s |}.
Definition set_sockets (v : _) (s : OBSWebSocket) : OBSWebSocket :=
  {| listeners := listeners s; ws := ws s; rpcVersion := rpcVersion s;
     isConnected := isConnected s; isIdentified := isIdentified s;
     pendingRequests := pendingRequests s; options := options s; reconnectTimer
     := reconnectTimer s; reconnectDelay := reconnectDelay s; shouldReconnect :=
     shouldReconnect s; sockets := v; connects := connects s; futures := futures
     s; timers := timers s; awaiting := awaiting s; nextRequestId :=
     nextRequestId s; nextWrapper := nextWrapper s; logged := logged s; console
     := console s; delivered := delivered s; emitted := emitted s |}.
Definition set_connects (v : _) (s : OBSWebSocket) : OBSWebSocket :=
  {| listeners := listeners s; ws := ws s; rpcVersion := rpcVersion s;
     isConnected := isConnected s; isIdentified := isIdentified s;
     pendingRequests := pendingRequests s; options := options s; reconnectTimer
     := reconnectTimer s; reconnectDelay := reconnectDelay s; shouldReconnect :=
     shouldReconnect s; sockets := sockets s; connects := v; futures := futures
     s; timers := timers s; awaiting := awaiting s; nextRequestId :=
     nextRequestId s; nextWrapper := nextWrapper s; logged := logged s; console
     := console s; delivered := delivered s; emitted := emitted s |}.
Definition set_futures (v : _) (s : OBSWebSocket) : OBSWebSocket :=
  {| listeners := listeners s; ws := ws s; rpcVersion := rpcVersion s;
     isConnected := isConnected s; isIdentified := isIdentified s;
     pendingRequests := pendingRequests s; options := options s; reconnectTimer
     := reconnectTimer s; reconnectDelay := reconnectDelay s; shouldReconnect :=
     shouldReconnect s; sockets := sockets s; connects := connects s; futures :=
     v; timers := timers s; awaiting := awaiting s; nextRequestId :=
     nextRequestId s; nextWrapper := nextWrapper s; logged := logged s; console
     := console s; delivered := delivered s; emitted := emitted s |}.
Definition set_timers (v : _) (s : OBSWebSocket) : OBSWebSocket :=
  {| listeners := listeners s; ws := ws s; rpcVersion := rpcVersion s;
     isConnected := isConnected s; isIdentified := isIdentified s;
     pendingRequests := pendingRequests s; options := options s; reconnectTimer
     := reconnectTimer s; reconnectDelay := reconnectDelay s; shouldReconnect :=
     shouldReconnect s; sockets := sockets s; connects := connects s; futures :=
     futures s; timers := v; awaiting := awaiting s; nextRequestId :=
     nextRequestId s; nextWrapper := nextWrapper s; logged := logged s; console
     := console s; delivered := delivered s; emitted := emitted s |}.
Definition set_awaiting (v : _) (s : OBSWebSocket) : OBSWebSocket :=
  {| listeners := listeners s; ws := ws s; rpcVersion := rpcVersion s;
     isConnected := isConnected s; isIdentified := isIdentified s;
     pendingRequests := pendingRequests s; options := options s; reconnectTimer
     := reconnectTimer s; reconnectDelay := reconnectDelay s; shouldReconnect :=
     shouldReconnect s; sockets := sockets s; connects := connects s; futures :=
     futures s; timers := timers s; awaiting := v; nextRequestId := nextRequestId
     s; nextWrapper := nextWrapper s; logged := logged s; console := console s;
     delivered := delivered s; emitted := emitted s |}.
Definition set_nextRequestId (v : _) (s : OBSWebSocket) : OBSWebSocket :=
  {| listeners := listeners s; ws := ws s; rpcVersion := rpcVersion s;
     isConnected := isConnected s; isIdentified := isIdentified s;
     pendingRequests := pendingRequests s; options := options s; reconnectTimer
     := reconnectTimer s; reconnectDelay := reconnectDelay s; shouldReconnect :=
     shouldReconnect s; sockets := sockets s; connects := connects s; futures :=
     futures s; timers := timers s; awaiting := awaiting s; nextRequestId := v;
     nextWrapper := nextWrapper s; logged := logged s; console := console s;
     delivered := delivered s; emitted := emitted s |}.
Definition set_nextWrapper (v : _) (s : OBSWebSocket) : OBSWebSocket :=
  {| listeners := listeners s; ws := ws s; rpcVersion := rpcVersion s;
     isConnected := isConnected s; isIdentified := isIdentified s;
     pendingRequests := pendingRequests s; options := options s; reconnectTimer
     := reconnectTimer s; reconnectDelay := reconnectDelay s; shouldReconnect :=
     shouldReconnect s; sockets := sockets s; connects := connects s; futures :=
     futures s; timers := timers s; awaiting := awaiting s; nextRequestId :=
     nextRequestId s; nextWrapper := v; logged := logged s; console := console s;
     delivered := delivered s; emitted := emitted s |}.
Definition set_logged (v : _) (s : OBSWebSocket) : OBSWebSocket :=
  {| listeners := listeners s; ws := ws s; rpcVersion := rpcVersion s;
     isConnected := isConnected s; isIdentified := isIdentified s;
     pendingRequests := pendingRequests s; options := options s; reconnectTimer
     := reconnectTimer s; reconnectDelay := reconnectDelay s; shouldReconnect :=
     shouldReconnect s; sockets := sockets s; connects := connects s; futures :=
     futures s; timers := timers s; awaiting := awaiting s; nextRequestId :=
     nextRequestId s; nextWrapper := nextWrapper s; logged := v; console :=
     console s; delivered := delivered s; emitted := emitted s |}.
Definition set_console (v : _) (s : OBSWebSocket) : OBSWebSocket :=
  {| listeners := listeners s; ws := ws s; rpcVersion := rpcVersion s;
     isConnected := isConnected s; isIdentified := isIdentified s;
     pendingRequests := pendingRequests s; options := options s; reconnectTimer
     := reconnectTimer s; reconnectDelay := reconnectDelay s; shouldReconnect :=
     shouldReconnect s; sockets := sockets s; connects := connects s; futures :=
     futures s; timers := timers s; awaiting := awaiting s; nextRequestId :=
     nextRequestId s; nextWrapper := nextWrapper s; logged := logged s; console
     := v; delivered := delivered s; emitted := emitted s |}.
Definition set_delivered (v : _) (s : OBSWebSocket) : OBSWebSocket :=
  {| listeners := listeners s; ws := ws s; rpcVersion := rpcVersion s;
     isConnected := isConnected s; isIdentified := isIdentified s;
     pendingRequests := pendingRequests s; options := options s; reconnectTimer
     := reconnectTimer s; reconnectDelay := reconnectDelay s; shouldReconnect :=
     shouldReconnect s; sockets := sockets s; connects := connects s; futures :=
     futures s; timers := timers s; awaiting := awaiting s; nextRequestId :=
     nextRequestId s; nextWrapper := nextWrapper s; logged := logged s; console
     := console s; delivered := v; emitted := emitted s |}.
Definition set_emitted (v : _) (s : OBSWebSocket) : OBSWebSocket :=
  {| listeners := listeners s; ws := ws s; rpcVersion := rpcVersion s;
     isConnected := isConnected s; isIdentified := isIdentified s;
     pendingRequests := pendingRequests s; options := options s; reconnectTimer
     := reconnectTimer s; reconnectDelay := reconnectDelay s; shouldReconnect :=
     shouldReconnect s; sockets := sockets s; connects := connects s; futures :=
     futures s; timers := timers s; awaiting := awaiting s; nextRequestId :=
     nextRequestId s; nextWrapper := nextWrapper s; logged := logged s; console
     := console s; delivered := delivered s; emitted := v |}.

(** [new OBSWebSocket(options)]. *)
Definition new_OBSWebSocket (opts : OBSWebSocketOptions) : OBSWebSocket :=
  {| listeners := ∅; ws := None; rpcVersion := 1; isConnected := false;
     isIdentified := false; pendingRequests := ∅; options := opts;
     reconnectTimer := None; reconnectDelay := 1000; shouldReconnect := false;
     sockets := []; connects := []; futures := []; timers := [];
     awaiting := []; nextRequestId := 0; nextWrapper := 0; logged := [];
     console := []; delivered := []; emitted := [] |}.

(** The constructor's defaulting: [{ eventSubscriptions: All, ...options }]
    with no option given. *)
Definition default_options : OBSWebSocketOptions :=
  {| eventSubscriptions := Some EventSubscription_All; logger := fun _ => false |}.

(** [get connected()]. *)
Definition connected (s : OBSWebSocket) : bool := isConnected s && isIdentified s.

(** ** State and exceptions *)

Inductive Result (A : Type) :=
| Ok (a : A) (s : OBSWebSocket)
| Throw (e : JS) (s : OBSWebSocket).
Arguments Ok {A} a s.
Arguments Throw {A} e s.

Definition M (A : Type) : Type := OBSWebSocket -> Result A.

Definition state_of {A} (r : Result A) : OBSWebSocket :=
  match r with Ok _ s => s | Throw _ s => s end.

Global Instance M_ret : MRet M := fun A a s => Ok a s.
Global Instance M_bind : MBind M := fun A B f m s =>
  match m s with
  | Ok a s' => f a s'
  | Throw e s' => Throw e s'
  end.

Definition throw {A} (e : JS) : M A := fun s => Throw e s.
Definition gets {A} (f : OBSWebSocket -> A) : M A := fun s => Ok (f s) s.
Definition modify (f : OBSWebSocket -> OBSWebSocket) : M unit := fun s => Ok tt (f s).

(** [try { body } catch (error) { handler(error) }]. *)
Definition try_catch {A} (body : M A) (handler : JS -> M A) : M A := fun s =>
  match body s with
  | Ok a s' => Ok a s'
  | Throw e s' => handler e s'
  end.

(** [v.k] for a property name [k] that no prototype defines. *)
Definition getProp (v : JS) (k : string) : M JS :=
  match v with
  | JUndefined =>
      throw (JErr (TypeError ("Cannot read properties of undefined (reading '"
                              +:+ k +:+ "')")))
  | JNull =>
      throw (JErr (TypeError ("Cannot read properties of null (reading '"
                              +:+ k +:+ "')")))
  | JObj fields => mret (assoc k fields)
  | _ => mret JUndefined
  end.

(** Settling a promise: only a pending one changes. *)
Definition settle (outcome : Settled) (p : nat) (ps : list Settled) : list Settled :=
  match ps !! p with
  | Some Pending => <[p := outcome]> ps
  | _ => ps
  end.

Definition resolveConnect (p : nat) (v : JS) : M unit :=
  modify (fun s => set_connects (settle (Fulfilled v) p (connects s)) s).
Definition rejectConnect (p : nat) (e : JS) : M unit :=
  modify (fun s => set_connects (settle (Rejected e) p (connects s)) s).
Definition resolveFuture (p : nat) (v : JS) : M unit :=
  modify (fun s => set_futures (settle (Fulfilled v) p (futures s)) s).
Definition rejectFuture (p : nat) (e : JS) : M unit :=
  modify (fun s => set_futures (settle (Rejected e) p (futures s)) s).

(** [private log(level, message, ...args)]: the configured callback of
    that level, if any, is called. *)
Definition with_log (level : Level) (message : string) (args : list JS)
    (s : OBSWebSocket) : OBSWebSocket :=
  if logger (options s) level
  then set_logged (logged s ++ [(level, message, args)]) s
  else s.
Arguments with_log : simpl never.

Definition log (level : Level) (message : string) (args : list JS) : M unit :=
  modify (with_log level message args).

Section Client.

(** [generateRequestId] of [utils/id] is taken as a parameter: the
    [n]-th call returns [generateRequestId n]. *)
Variable generateRequestId : nat -> string.

(** A listener supplied by a caller is known by what it does when called:
    given its identity, the payload and the invocations made so far, it
    returns ([None]) or throws a value. *)
Variable userListener :
  nat -> JS -> list (string * nat * JS * option JS) -> option JS.

(** Call-stack room left beyond the four nested calls a dispatch needs. *)
Variable spare : nat.

(* ===================================================================== *)
(** * utils/event-emitter *)
(* ===================================================================== *)

(** A [Set] of listeners is the list of its members in insertion order. *)
Definition on (event : string) (listener : Listener) : M unit :=
  modify (fun s =>
    let set := default [] (listeners s !! event) in
    let set' := if bool_decide (listener ∈ set) then set else set ++ [listener] in
    set_listeners (<[event := set']> (listeners s)) s).

Definition once (event : string) (listener : Listener) : M unit :=
  w ← gets nextWrapper;
  modify (set_nextWrapper (S w));;
  on event (OnceWrapper w event listener).

Definition off (event : string) (listener : Listener) : M unit :=
  modify (fun s =>
    match listeners s !! event with
    | Some set =>
        let set' := filter (fun l => l ≠ listener) set in
        if decide (length set' = 0)
        then set_listeners (delete event (listeners s)) s
        else set_listeners (<[event := set']> (listeners s)) s
    | None => s
    end).

Definition removeAllListeners (event : option string) : M unit :=
  modify (fun s =>
    if truthy_opt event
    then set_listeners (delete (default "" event) (listeners s)) s
    else set_listeners ∅ s).

Definition console_error (event : string) (e : JS) : M unit :=
  modify (fun s => set_console (console s ++ [(event, e)]) s).

(** [emit], over the way a listener is called.  The loop walks the members
    the set has when the dispatch starts; a listener of this model changes
    the set it is dispatched from only by removing itself. *)
Definition emit_with (call : Listener -> JS -> M unit)
    (event : string) (data : JS) : M unit :=
  fun s =>
    let s0 := set_emitted (emitted s ++ [(event, data)]) s in
    match listeners s0 !! event with
    | Some set =>
        Ok tt (fold_left
                 (fun st listener =>
                    state_of (try_catch (call listener data)
                                        (console_error event) st))
                 set s0)
    | None => Ok tt s0
    end.

(* ===================================================================== *)
(** * obs-websocket: sending and the handshake *)
(* ===================================================================== *)

Definition not_connected : JS := JErr (Error "WebSocket is not connected").

(** [private send(message)]. *)
Definition send (message : WebSocketMessage) : M unit :=
  w ← gets ws;
  match w with
  | None => throw not_connected
  | Some i =>
      k ← gets (fun s => sockets s !! i);
      match k with
      | Some sock =>
          if decide (readyState sock = OPEN)
          then
            log LDebug "Sending message:" [JNum (OpCode message)];;
            modify (fun s =>
              set_sockets
                (<[i := {| url := url sock; readyState := readyState sock;
                           sent := sent sock ++ [message];
                           closeCalls := closeCalls sock |}]> (sockets s)) s)
          else throw not_connected
      | None => throw not_connected
      end
  end.

Definition auth_required : JS :=
  JErr (Error "Server requires authentication but no password provided").

(** The promise executor at the end of [identify]; an exception inside an
    executor rejects the promise. *)
Definition identify_finish (message : IdentifyMessage) (promise : nat) : M unit :=
  try_catch
    (once "obs:Identified" (IdentifiedHandler promise);;
     once "obs:error" (ErrorHandler promise);;
     send (Identify message))
    (rejectConnect promise).

(** [private async identify(hello, password)] up to its first [await] or
    its [return]. *)
Definition identify (hello : JS) (password : option string) (promise : nat)
    : M unit :=
  d ← getProp hello "d";
  rpc ← getProp d "rpcVersion";
  subs ← gets (fun s => eventSubscriptions (options s));
  let message := {| identify_rpcVersion := rpc;
                    identify_authentication := None;
                    identify_eventSubscriptions := subs |} in
  auth ← getProp d "authentication";
  if truthy auth && truthy_opt password then
    slt ← getProp auth "salt";
    chl ← getProp auth "challenge";
    modify (fun s =>
      set_awaiting
        (awaiting s ++ [Some {| task_message := message;
                                task_password := default "" password;
                                task_salt := slt; task_challenge := chl;
                                task_promise := promise |}]) s)
  else if truthy auth && negb (truthy_opt password) then
    throw auth_required
  else
    identify_finish message promise.

(** The rest of [identify] once [generateAuth] has produced its value. *)
Definition identify_resume (task : AuthTask) : M unit :=
  let auth := generateAuth (task_password task) (toString (task_salt task))
                           (toString (task_challenge task)) in
  identify_finish
    {| identify_rpcVersion := identify_rpcVersion (task_message task);
       identify_authentication := Some auth;
       identify_eventSubscriptions :=
         identify_eventSubscriptions (task_message task) |}
    (task_promise task).

(** The listener [connect] registers for [obs:Hello]:
    [try { await this.identify(hello, password); resolve() }
     catch (error) { reject(error) }]. *)
Definition helloHandler (password : option string) (promise : nat)
    (hello : JS) : M unit :=
  try_catch (identify hello password promise) (rejectConnect promise).

(** Calling a stored function.  [depth] is the room left on the call
    stack. *)
Fixpoint invoke (depth : nat) (event : string) (l : Listener) (data : JS)
    {struct depth} : M unit :=
  match depth with
  | O => throw (JErr (RangeError "Maximum call stack size exceeded"))
  | S d =>
      match l with
      | UserListener id =>
          fun s =>
            let thrown := userListener id data (delivered s) in
            let s' := set_delivered (delivered s ++ [(event, id, data, thrown)]) s in
            match thrown with
            | Some e => Throw e s'
            | None => Ok tt s'
            end
      | OnceWrapper _ ev listener =>
          off ev l;;
          invoke d event listener data
      | HelloHandler password promise => helloHandler password promise data
      | IdentifiedHandler promise =>
          modify (set_isIdentified true);;
          dd ← getProp data "d";
          emit_with (invoke d "Identified") "Identified" dd;;
          emit_with (invoke d "ConnectionOpened") "ConnectionOpened" JUndefined;;
          resolveConnect promise JUndefined
      | ErrorHandler promise => rejectConnect promise data
      end
  end.

Definition emit (event : string) (data : JS) : M unit :=
  emit_with (invoke (4 + spare) event) event data.
Arguments emit : simpl never.

(* ===================================================================== *)
(** * obs-websocket: the public operations *)
(* ===================================================================== *)

Definition default_url : string := "ws://localhost:4455".

(** [async connect(url, password?)]; the value is the index of the promise
    returned.  The four [addEventListener] calls tie [handleMessage],
    [onOpen], [handleClose] and [handleError] to the socket's events. *)
Definition connect (url : string) (password : option string) : M nat :=
  p ← gets (fun s => length (connects s));
  w ← gets ws;
  match w with
  | Some _ =>
      modify (fun s =>
        set_connects
          (connects s ++ [Rejected (JErr (Error "Already connected or connecting"))])
          s);;
      mret p
  | None =>
      modify (set_shouldReconnect true);;
      modify (set_reconnectDelay 1000);;
      modify (fun s => set_connects (connects s ++ [Pending]) s);;
      log LDebug "Connecting to" [JStr url];;
      i ← gets (fun s => length (sockets s));
      modify (fun s =>
        set_sockets (sockets s ++ [{| url := url; readyState := CONNECTING;
                                      sent := []; closeCalls := [] |}]) s);;
      modify (set_ws (Some i));;
      once "obs:Hello" (HelloHandler password p);;
      mret p
  end.

(** [onOpen] of [connect]. *)
Definition onOpen : M unit :=
  log LDebug "WebSocket connected" [];;
  modify (set_isConnected true).

Definition clearTimeout (t : nat) : M unit :=
  modify (fun s =>
    match timers s !! t with
    | Some (delay, Armed) => set_timers (<[t := (delay, Cleared)]> (timers s)) s
    | _ => s
    end).

(** [setTimeout(callback, delay)] for the one callback the class passes. *)
Definition setTimeout (delay : Z) : M nat :=
  t ← gets (fun s => length (timers s));
  modify (fun s => set_timers (timers s ++ [(delay, Armed)]) s);;
  mret t.

(** [ws.close(code, reason)]. *)
Definition ws_close (i : nat) (code : Z) (reason : string) : M unit :=
  modify (fun s =>
    match sockets s !! i with
    | Some sock =>
        set_sockets
          (<[i := {| url := url sock;
                     readyState := match readyState sock with
                                   | CLOSED => CLOSED
                                   | _ => CLOSING
                                   end;
                     sent := sent sock;
                     closeCalls := closeCalls sock ++ [(code, reason)] |}]>
             (sockets s)) s
    | None => s
    end).

Definition connection_closed : JS := JErr (Error "Connection closed").

(** [for (const [, { reject }] of this.pendingRequests)
       reject(new Error('Connection closed'))].
    Every entry is rejected with the same error, so the order in which the
    map is walked does not show. *)
Definition rejectAllPending : M unit :=
  modify (fun s =>
    set_futures
      (fold_left (fun fs entry => settle (Rejected connection_closed) (snd entry) fs)
                 (map_to_list (pendingRequests s)) (futures s)) s).

Definition disconnect : M unit :=
  modify (set_shouldReconnect false);;
  (t ← gets reconnectTimer;
   match t with
   | Some timer => clearTimeout timer;; modify (set_reconnectTimer None)
   | None => mret tt
   end);;
  (w ← gets ws;
   match w with
   | Some i => ws_close i 1000 "Client disconnect";; modify (set_ws None)
   | None => mret tt
   end);;
  modify (set_isConnected false);;
  modify (set_isIdentified false);;
  rejectAllPending;;
  modify (set_pendingRequests ∅);;
  emit "ConnectionClosed"
       (JObj [("code", JNum 1000); ("reason", JStr "Client disconnect")]).

Definition not_connected_to_obs : JS :=
  JErr (Error "Not connected to OBS WebSocket").

(** A new promise whose executor records the entry and sends the frame. *)
Definition pending_request (requestId : string) (message : WebSocketMessage)
    : M nat :=
  p ← gets (fun s => length (futures s));
  modify (fun s => set_futures (futures s ++ [Pending]) s);;
  try_catch
    (modify (fun s => set_pendingRequests (<[requestId := p]> (pendingRequests s)) s);;
     send message)
    (rejectFuture p);;
  mret p.

Definition rejected_future (e : JS) : M nat :=
  p ← gets (fun s => length (futures s));
  modify (fun s => set_futures (futures s ++ [Rejected e]) s);;
  mret p.

Definition next_request_id : M string :=
  n ← gets nextRequestId;
  modify (set_nextRequestId (S n));;
  mret (generateRequestId n).

(** [async call(requestType, requestData?)]. *)
Definition call (requestType : string) (requestData : option JS) : M nat :=
  c ← gets connected;
  if negb c then rejected_future not_connected_to_obs
  else
    requestId ← next_request_id;
    pending_request requestId
      (Request {| request_requestType := requestType;
                  request_requestId := requestId;
                  request_requestData := requestData |}).

Record BatchOptions := {
  opt_haltOnFailure : option bool;
  opt_executionType : option Z }.

Fixpoint mapM {A B} (f : A -> M B) (l : list A) : M (list B) :=
  match l with
  | [] => mret []
  | x :: rest => y ← f x; ys ← mapM f rest; mret (y :: ys)
  end.

(** [async callBatch(requests, options?)]. *)
Definition callBatch (reqs : list (string * option JS))
    (opts : option BatchOptions) : M nat :=
  c ← gets connected;
  if negb c then rejected_future not_connected_to_obs
  else
    requestId ← next_request_id;
    members ← mapM (fun req =>
                      memberId ← next_request_id;
                      mret {| member_requestType := fst req;
                              member_requestId := Some memberId;
                              member_requestData := snd req |}) reqs;
    pending_request requestId
      (RequestBatch {| batch_requestId := requestId;
                       haltOnFailure := opts ≫= opt_haltOnFailure;
                       executionType := opts ≫= opt_executionType;
                       requests := members |}).

Definition reidentify (subs : option Z) : M unit :=
  c ← gets connected;
  if negb c then throw not_connected_to_obs
  else
    dflt ← gets (fun s => eventSubscriptions (options s));
    send (Reidentify {| reidentify_eventSubscriptions :=
                          match subs with Some m => Some m | None => dflt end |}).

(* ===================================================================== *)
(** * obs-websocket: inbound frames *)
(* ===================================================================== *)

Definition handleEvent (message : EventMessage) : M unit :=
  log LDebug "Event received:" [JStr (eventType message)];;
  emit (eventType message) (or_undefined (eventData message)).

(** [new OBSRequestError(status.code, status.comment || 'Unknown error',
    requestType)]. *)
Definition request_error (status : RequestStatus) (requestType : string) : JS :=
  JErr (OBSRequestError (code status)
          (if truthy_opt (comment status) then default "" (comment status)
           else "Unknown error")
          requestType).

Definition handleRequestResponse (message : RequestResponseMessage) : M unit :=
  let requestId := response_requestId message in
  pending ← gets (fun s => pendingRequests s !! requestId);
  match pending with
  | None => log LWarn "Received response for unknown request:" [JStr requestId]
  | Some p =>
      modify (fun s => set_pendingRequests (delete requestId (pendingRequests s)) s);;
      if result (requestStatus message)
      then resolveFuture p (or_undefined (responseData message))
      else rejectFuture p (request_error (requestStatus message)
                                         (response_requestType message))
  end.

Definition handleBatchResponse (message : RequestBatchResponseMessage) : M unit :=
  let requestId := batchResponse_requestId message in
  pending ← gets (fun s => pendingRequests s !! requestId);
  match pending with
  | None =>
      log LWarn "Received batch response for unknown request:" [JStr requestId]
  | Some p =>
      modify (fun s => set_pendingRequests (delete requestId (pendingRequests s)) s);;
      try_catch
        (responses ← mapM (fun r =>
                             if result (result_requestStatus r)
                             then mret (or_undefined (result_responseData r))
                             else throw (request_error (result_requestStatus r)
                                                       (result_requestType r)))
                          (results message);
         resolveFuture p (JArr responses))
        (rejectFuture p)
  end.

Definition handleMessage (event : MessageEvent) : M unit :=
  try_catch
    (match event with
     | InvalidJSON reason => throw (JErr (SyntaxError reason))
     | ParsedMessage message =>
         log LDebug "Received message:" [JNum (OpCode message)];;
         match message with
         | Hello h => emit "obs:Hello" (js_of_hello h)
         | Identified m =>
             modify (set_rpcVersion (negotiatedRpcVersion m));;
             emit "obs:Identified" (js_of_identified m)
         | Event m => handleEvent m
         | RequestResponse m => handleRequestResponse m
         | RequestBatchResponse m => handleBatchResponse m
         | _ => log LWarn "Unknown message opcode:" [JNum (OpCode message)]
         end
     | ParsedOther op =>
         log LDebug "Received message:" [op];;
         log LWarn "Unknown message opcode:" [op]
     end)
    (fun error =>
       log LError "Failed to parse message:" [error];;
       emit "obs:error" error).

(** The callback [scheduleReconnect] hands to [setTimeout]. *)
Definition reconnect_callback : M unit :=
  modify (set_reconnectTimer None);;
  emit "Reconnecting" JUndefined;;
  modify (fun s =>
    set_reconnectDelay (Z.min (reconnectDelay s * 2) maxReconnectDelay) s);;
  emit "obs:reconnect" JUndefined.

Definition scheduleReconnect : M unit :=
  t ← gets reconnectTimer;
  match t with
  | Some timer => clearTimeout timer
  | None => mret tt
  end;;
  delay ← gets reconnectDelay;
  log LInfo ("Reconnecting in " +:+ pretty delay +:+ "ms...") [];;
  timer ← setTimeout delay;
  modify (set_reconnectTimer (Some timer)).

Definition handleClose (code : Z) (reason : string) : M unit :=
  log LInfo "WebSocket closed:" [JNum code; JStr reason];;
  modify (set_isConnected false);;
  modify (set_isIdentified false);;
  modify (set_ws None);;
  rejectAllPending;;
  modify (set_pendingRequests ∅);;
  emit "ConnectionClosed" (JObj [("code", JNum code); ("reason", JStr reason)]);;
  reconnect ← gets shouldReconnect;
  if reconnect && negb (code =? 1000)%Z then scheduleReconnect else mret tt.

Definition handleError : M unit :=
  log LError "WebSocket error:" [];;
  emit "obs:error" (JErr (Error "WebSocket error")).

(* ===================================================================== *)
(** * Runs of the client *)
(* ===================================================================== *)

(** What can happen to an instance: a call of its public interface, an
    event of one of its sockets, the reconnect timer firing, or a suspended
    [generateAuth] completing. *)
Inductive Input :=
| ApiConnect (url : string) (password : option string)
| ApiDisconnect
| ApiCall (requestType : string) (requestData : option JS)
| ApiCallBatch (reqs : list (string * option JS)) (opts : option BatchOptions)
| ApiReidentify (subs : option Z)
| ApiOn (event : string) (id : nat)
| ApiOnce (event : string) (id : nat)
| ApiOff (event : string) (id : nat)
| ApiRemoveAllListeners (event : option string)
| ApiEmit (event : string) (data : JS)
| SocketOpen (sock : nat)
| SocketMessage (sock : nat) (event : MessageEvent)
| SocketClosing (sock : nat)
| SocketClose (sock : nat) (code : Z) (reason : string)
| SocketError (sock : nat)
| TimerFired (timer : nat)
| DigestDone (task : nat).

Definition set_readyState (i : nat) (r : ReadyState) : M unit :=
  modify (fun s =>
    match sockets s !! i with
    | Some sock =>
        set_sockets (<[i := {| url := url sock; readyState := r;
                               sent := sent sock;
                               closeCalls := closeCalls sock |}]> (sockets s)) s
    | None => s
    end).

Definition socket_state (i : nat) (s : OBSWebSocket) : option ReadyState :=
  readyState <$> sockets s !! i.

(** A socket opens once, delivers frames and errors until it is closed, and
    closes once; the closing handshake may start before the close event. *)
Definition exec (i : Input) : M unit :=
  match i with
  | ApiConnect u password => connect u password;; mret tt
  | ApiDisconnect => disconnect
  | ApiCall requestType requestData => call requestType requestData;; mret tt
  | ApiCallBatch reqs opts => callBatch reqs opts;; mret tt
  | ApiReidentify subs => reidentify subs
  | ApiOn event id => on event (UserListener id)
  | ApiOnce event id => once event (UserListener id)
  | ApiOff event id => off event (UserListener id)
  | ApiRemoveAllListeners event => removeAllListeners event
  | ApiEmit event data => emit event data
  | SocketOpen sock =>
      r ← gets (socket_state sock);
      match r with
      | Some CONNECTING => set_readyState sock OPEN;; onOpen
      | _ => mret tt
      end
  | SocketMessage sock event =>
      r ← gets (socket_state sock);
      match r with
      | Some CLOSED | None => mret tt
      | Some _ => handleMessage event
      end
  | SocketClosing sock =>
      r ← gets (socket_state sock);
      match r with
      | Some CONNECTING | Some OPEN => set_readyState sock CLOSING
      | _ => mret tt
      end
  | SocketClose sock code reason =>
      r ← gets (socket_state sock);
      match r with
      | Some CLOSED | None => mret tt
      | Some _ => set_readyState sock CLOSED;; handleClose code reason
      end
  | SocketError sock =>
      r ← gets (socket_state sock);
      match r with
      | Some CLOSED | None => mret tt
      | Some _ => handleError
      end
  | TimerFired timer =>
      t ← gets (fun s => timers s !! timer);
      match t with
      | Some (delay, Armed) =>
          modify (fun s => set_timers (<[timer := (delay, Fired)]> (timers s)) s);;
          reconnect_callback
      | _ => mret tt
      end
  | DigestDone task =>
      t ← gets (fun s => awaiting s !! task);
      match t with
      | Some (Some tk) =>
          modify (fun s => set_awaiting (<[task := None]> (awaiting s)) s);;
          identify_resume tk
      | _ => mret tt
      end
  end.

Definition step (i : Input) (s : OBSWebSocket) : OBSWebSocket := state_of (exec i s).

Definition run (inputs : list Input) (s : OBSWebSocket) : OBSWebSocket :=
  fold_left (fun st i => step i st) inputs s.

Inductive reachable : OBSWebSocket -> Prop :=
| reachable_new (opts : OBSWebSocketOptions) : reachable (new_OBSWebSocket opts)
| reachable_step (s : OBSWebSocket) (i : Input) :
    reachable s -> reachable (step i s).

(* ===================================================================== *)
(** * Properties of states, and the outcomes the specification names *)
(* ===================================================================== *)

(** Where a stored function may sit: a caller's listener anywhere, bare or
    wrapped by [once]; a handler of the handshake only wrapped, and only
    under the name it was registered for. *)
Definition listener_ok (event : string) (l : Listener) : Prop :=
  match l with
  | UserListener _ => True
  | OnceWrapper _ ev inner =>
      ev = event /\
      match inner with
      | UserListener _ => True
      | HelloHandler _ _ => event = "obs:Hello"
      | IdentifiedHandler _ => event = "obs:Identified"
      | ErrorHandler _ => event = "obs:error"
      | OnceWrapper _ _ _ => False
      end
  | _ => False
  end.

Definition names_ok (s : OBSWebSocket) : Prop :=
  forall event set l,
    listeners s !! event = Some set -> l ∈ set -> listener_ok event l.

(** Entries of the pending map refer to promises that exist. *)
Definition pending_bounded (s : OBSWebSocket) : Prop :=
  forall id p, pendingRequests s !! id = Some p -> p < length (futures s).

(** The only timer that can still fire is the one [reconnectTimer] holds. *)
Definition timers_ok (s : OBSWebSocket) : Prop :=
  forall t delay, timers s !! t = Some (delay, Armed) -> reconnectTimer s = Some t.

Record wf (s : OBSWebSocket) : Prop := {
  wf_names : names_ok s;
  wf_pending : pending_bounded s;
  wf_timers : timers_ok s }.

(** The members of a set that are callers' listeners, by identity. *)
Definition user_id (l : Listener) : option nat :=
  match l with
  | UserListener id => Some id
  | OnceWrapper _ _ (UserListener id) => Some id
  | _ => None
  end.

Definition registered (event : string) (s : OBSWebSocket) : list Listener :=
  default [] (listeners s !! event).

Definition user_ids (event : string) (s : OBSWebSocket) : list nat :=
  omap user_id (registered event s).

Definition delivery_event (d : string * nat * JS * option JS) : string := d.1.1.1.
Definition delivery_listener (d : string * nat * JS * option JS) : nat := d.1.1.2.
Definition delivery_payload (d : string * nat * JS * option JS) : JS := d.1.2.
Definition delivery_thrown (d : string * nat * JS * option JS) : option JS := d.2.

Definition deliveries_of (event : string) (s : OBSWebSocket)
    : list (string * nat * JS * option JS) :=
  filter (fun d => delivery_event d = event) (delivered s).

(** The outcome of a request, in the words of the specification: the
    payload on [result: true], a RequestFailure on [result: false]. *)
Definition response_outcome (m : RequestResponseMessage) : Settled :=
  if result (requestStatus m)
  then Fulfilled (or_undefined (responseData m))
  else Rejected (request_error (requestStatus m) (response_requestType m)).







(** How a step relates the state before and after. *)
Definition preserves {A} (R : relation OBSWebSocket) (m : M A) : Prop :=
  forall s, R s (state_of (m s)).

Definition keeps {T} (f : OBSWebSocket -> T) : relation OBSWebSocket :=
  fun s s' => f s' = f s.

Definition maintains (P : OBSWebSocket -> Prop) : relation OBSWebSocket :=
  fun s s' => P s -> P s'.

(** Fields no listener writes. *)
Definition core (s : OBSWebSocket) :=
  (ws s, rpcVersion s, isConnected s, pendingRequests s, options s,
   reconnectTimer s, reconnectDelay s, shouldReconnect s, futures s,
   timers s, nextRequestId s).

(** Fields a caller's listener and the [obs:error] handler do not write. *)
Definition session (s : OBSWebSocket) :=
  (core s, isIdentified s, sockets s, awaiting s, logged s).

Definition timer_fields (s : OBSWebSocket) := (timers s, reconnectTimer s).

(** What [once] may be given so that the wrapper is well placed. *)
Definition once_ok (event : string) (inner : Listener) : Prop :=
  match inner with
  | UserListener _ => True
  | HelloHandler _ _ => event = "obs:Hello"
  | IdentifiedHandler _ => event = "obs:Identified"
  | ErrorHandler _ => event = "obs:error"
  | OnceWrapper _ _ _ => False
  end.

(** A socket after one more frame was handed to it. *)
Definition push_sent (message : WebSocketMessage) (sock : WebSocket) : WebSocket :=
  {| url := url sock; readyState := readyState sock;
     sent := sent sock ++ [message]; closeCalls := closeCalls sock |}.

(** The socket [this.ws] refers to is open. *)
Definition socket_open (s : OBSWebSocket) : Prop :=
  exists i sock, ws s = Some i /\ sockets s !! i = Some sock /\ readyState sock = OPEN.

(** A request is in flight: its entry is in the pending map and its
    promise has not been settled. *)
Definition in_flight (s : OBSWebSocket) (requestId : string) (p : nat) : Prop :=
  pendingRequests s !! requestId = Some p /\ futures s !! p = Some Pending.

(** The first response of a list that carries a given request id. *)
Definition first_response (requestId : string) (rs : list RequestResponseMessage)
    : option RequestResponseMessage :=
  find (fun r => bool_decide (response_requestId r = requestId)) rs.


(** A step that delivers nothing under [event] and only adds to what
    [console.error] printed. *)
Definition quiet_for (event : string) : relation OBSWebSocket :=
  fun s s' =>
    deliveries_of event s' = deliveries_of event s
    /\ exists extra, console s' = console s ++ extra.

(** A delivery without the value thrown. *)
Definition delivery_call (d : string * nat * JS * option JS) : string * nat * JS :=
  (delivery_event d, delivery_listener d, delivery_payload d).

(** Members of a set whose call touches neither the session nor the
    sockets: callers' listeners, and the [obs:error] handler. *)
Definition plain (l : Listener) : Prop :=
  match l with
  | UserListener _ => True
  | OnceWrapper _ _ (UserListener _) => True
  | OnceWrapper _ _ (ErrorHandler _) => True
  | _ => False
  end.






Definition reconnect_fields (s : OBSWebSocket) :=
  (timers s, shouldReconnect s, reconnectDelay s, reconnectTimer s).



(** A series of calls, and a series of responses arriving on socket [i]. *)
Definition issue (cs : list (string * option JS)) : list Input :=
  map (fun c => ApiCall c.1 c.2) cs.

Definition respond (i : nat) (rs : list RequestResponseMessage) : list Input :=
  map (fun r => SocketMessage i (ParsedMessage (RequestResponse r))) rs.

(** What holds of a state [st] reached from [s] by [n] calls and then the
    responses [rs]: each call's promise holds the outcome of the first
    response with the call's id, or is pending with its entry in place; no
    other entry refers to a call's promise. *)
Record correlated (s : OBSWebSocket) (i n : nat)
    (rs : list RequestResponseMessage) (st : OBSWebSocket) : Prop := {
  cor_length : length (futures st) = length (futures s) + n;
  cor_socket : exists sk, sockets st !! i = Some sk /\ readyState sk = OPEN;
  cor_own : forall k, k < n ->
      match first_response (generateRequestId (nextRequestId s + k)) rs with
      | Some r =>
          futures st !! (length (futures s) + k) = Some (response_outcome r)
          /\ pendingRequests st !! generateRequestId (nextRequestId s + k) = None
      | None =>
          futures st !! (length (futures s) + k) = Some Pending
          /\ pendingRequests st !! generateRequestId (nextRequestId s + k)
             = Some (length (futures s) + k)
      end;
  cor_others : forall id p, pendingRequests st !! id = Some p ->
      p < length (futures s)
      \/ exists k, k < n /\ id = generateRequestId (nextRequestId s + k)
                   /\ p = length (futures s) + k }.

(** The [identify] call the Hello handler leaves suspended when the Hello
    [h] carries the authentication [a] and [password] was given, and the
    Identify frame the specification expects for it. *)
Definition hello_task (s : OBSWebSocket) (h : HelloMessage) (a : Authentication)
    (password : string) (p : nat) : AuthTask :=
  {| task_message := {| identify_rpcVersion := JNum (hello_rpcVersion h);
                        identify_authentication := None;
                        identify_eventSubscriptions := eventSubscriptions (options s) |};
     task_password := password;
     task_salt := JStr (salt a);
     task_challenge := JStr (challenge a);
     task_promise := p |}.

Definition expected_identify (s : OBSWebSocket) (h : HelloMessage)
    (a : Authentication) (password : string) : WebSocketMessage :=
  Identify {| identify_rpcVersion := JNum (hello_rpcVersion h);
              identify_authentication :=
                Some (reference_response password (salt a) (challenge a));
              identify_eventSubscriptions := eventSubscriptions (options s) |}.



(** ** Data for the examples *)

Definition example_id (n : nat) : string := "req-" +:+ pretty n.

(** Listener 1 throws, every other listener returns. *)
Definition example_listener (id : nat) (data : JS)
    (history : list (string * nat * JS * option JS)) : option JS :=
  if Nat.eqb id 1 then Some (JStr "boom") else None.

Definition example_authentication : Authentication :=
  {| challenge := "+IxH4CnCiqpX1rM9scsNynZzbOe4KhDeYcTNS3PDaeY=";
     salt := "lM1GncleQOaCu9lT1yeUZhFYnqhsLLP1G5lAGo3ixaI=" |}.

Definition hello_with_authentication : HelloMessage :=
  {| obsWebSocketVersion := "5.5.2"; hello_rpcVersion := 1;
     authentication := Some example_authentication |}.

Definition hello_plain : HelloMessage :=
  {| obsWebSocketVersion := "5.5.2"; hello_rpcVersion := 1;
     authentication := None |}.

Definition identified : MessageEvent :=
  ParsedMessage (Identified {| negotiatedRpcVersion := 1 |}).

(** A session brought up without authentication on socket 0. *)
Definition established : list Input :=
  [ ApiConnect default_url None; SocketOpen 0;
    SocketMessage 0 (ParsedMessage (Hello hello_plain));
    SocketMessage 0 identified ].

Definition response (requestType requestId : string) (ok : bool) (code : Z)
    (comment : option string) (data : option JS) : RequestResponseMessage :=
  {| response_requestType := requestType; response_requestId := requestId;
     requestStatus := {| result := ok; code := code; comment := comment |};
     responseData := data |}.


Definition two_calls : list (string * option JS) :=
  [ ("GetVersion", None); ("GetStats", None) ].

(** The responses arrive in the opposite order of the calls. *)
Definition two_responses : list RequestResponseMessage :=
  [ response "GetStats" "req-1" false 600 None None;
    response "GetVersion" "req-0" true 100 None (Some (JObj [("obsVersion", JStr "30.2.2")])) ].


(** The owner redials with [connect] when the reconnect signal fires. *)
Definition redial : list Input :=
  [ ApiConnect default_url None; SocketOpen 0; SocketClose 0 1006 "";
    TimerFired 0;
    ApiConnect default_url None; SocketOpen 1; SocketClose 1 1006 "" ].

(** Two sockets close abnormally before the first timer fires. *)
Definition back_to_back : list Input :=
  [ ApiConnect default_url None; SocketOpen 0; ApiDisconnect;
    ApiConnect default_url None; SocketOpen 1;
    SocketClose 0 1006 ""; SocketClose 1 1006 "" ].

(** The server starts the closing handshake, then [call] is used before
    the close event arrives. *)
Definition call_while_closing : list Input :=
  established ++ [ SocketClosing 0; ApiCall "GetVersion" None ].

Definition with_listeners : list Input :=
  [ ApiOn "ExitStarted" 0; ApiOn "ExitStarted" 1; ApiOnce "ExitStarted" 2;
    ApiOn "obs:error" 3 ].

(** The state a new client with default options is in after [inputs]. *)
Definition after (inputs : list Input) : OBSWebSocket :=
  run inputs (new_OBSWebSocket default_options).

(** A socket of the default URL, open, with nothing sent yet. *)
Definition open_socket : WebSocket :=
  {| url := default_url; readyState := OPEN; sent := []; closeCalls := [] |}.

Definition halting (halt : bool) : option BatchOptions :=
  Some {| opt_haltOnFailure := Some halt; opt_executionType := None |}.



(** A session whose caller listens for [obs:error] and has a request in
    flight. *)
Definition listening : list Input :=
  established ++ [ ApiOn "obs:error" 3; ApiCall "GetStats" None ].



(* ===================================================================== *)
(** * Further notions, for properties beyond the specification's claims *)
(* ===================================================================== *)


(** A member that stands for a caller's listener, bare or wrapped for
    this event. *)
Definition callers (event : string) (l : Listener) : Prop :=
  match l with
  | UserListener _ => True
  | OnceWrapper _ ev (UserListener _) => ev = event
  | _ => False
  end.

(** No event name is mapped to an empty set: [off] deletes the name with
    its last listener. *)
Definition sets_nonempty (s : OBSWebSocket) : Prop :=
  forall event, listeners s !! event <> Some [].


(** The members [callBatch] puts in its frame when the next id to be
    generated is the [n]-th: the requests in their order, each with an id
    of its own. *)
Definition batch_members (n : nat) (reqs : list (string * option JS))
    : list BatchRequest :=
  imap (fun j req => {| member_requestType := fst req;
                        member_requestId := Some (generateRequestId (n + j));
                        member_requestData := snd req |}) reqs.

(** The reconnect delay is within the bounds the class sets. *)
Definition delay_bounded (s : OBSWebSocket) : Prop :=
  (1000 <= reconnectDelay s <= maxReconnectDelay)%Z.

(** Names under which [connect] and [identify] register handlers that
    change the session. *)
Definition handshake_name (event : string) : Prop :=
  event = "obs:Hello" \/ event = "obs:Identified".

(** Names under which the class itself registers handlers. *)
Definition internal_name (event : string) : Prop :=
  event = "obs:Hello" \/ event = "obs:Identified" \/ event = "obs:error".

(** What the call of a caller's listener leaves alone. *)
Definition user_fields (s : OBSWebSocket) :=
  (session s, emitted s, connects s).

(** A socket after [close(code, reason)] was called on it. *)
Definition close_called (code : Z) (reason : string) (sock : WebSocket) : WebSocket :=
  {| url := url sock;
     readyState := match readyState sock with CLOSED => CLOSED | _ => CLOSING end;
     sent := sent sock;
     closeCalls := closeCalls sock ++ [(code, reason)] |}.

(** An operation that returns normally from every state. *)
Definition returns {A} (m : M A) : Prop :=
  forall s, exists a s', m s = Ok a s'.

(** ** Further data for the examples *)

(** A socket is open and the Hello has not arrived yet. *)
Definition opened : list Input :=
  [ ApiConnect default_url None; SocketOpen 0 ].

(** The Identify frame is sent and the handshake waits for Identified. *)
Definition handshaking : list Input :=
  opened ++ [ SocketMessage 0 (ParsedMessage (Hello hello_plain)) ].

(** The socket closed abnormally and the reconnect timer is armed. *)
Definition armed : list Input :=
  opened ++ [ SocketClose 0 1006 "" ].




Definition identify_plain : WebSocketMessage :=
  Identify {| identify_rpcVersion := JNum 1;
              identify_authentication := None;
              identify_eventSubscriptions := Some EventSubscription_All |}.

(** The socket of an established session: the Identify frame is all
    that was sent. *)
Definition identified_socket : WebSocket := push_sent identify_plain open_socket.

(** The frame sent last, over all sockets in the order they were made. *)
Definition last_sent (s : OBSWebSocket) : option WebSocketMessage :=
  last (concat (sent <$> sockets s)).

(* ===================================================================== *)
(** * Lemmas *)
(* ===================================================================== *)


(* ===================================================================== *)
(** * Reasoning about steps *)
(* ===================================================================== *)

Global Instance keeps_preorder {T} (f : OBSWebSocket -> T) : PreOrder (keeps f).
Proof.
  split.
  - intros s. reflexivity.
  - intros s1 s2 s3 H12 H23. unfold keeps in *. congruence.
Qed.

Global Instance maintains_preorder (P : OBSWebSocket -> Prop) : PreOrder (maintains P).
Proof. split; unfold maintains; intros ?; auto. Qed.

Lemma state_of_bind {A B} (m : M A) (f : A -> M B) s :
  state_of ((m ≫= f) s)
  = match m s with
    | Ok a s' => state_of (f a s')
    | Throw _ s' => s'
    end.
Proof. unfold mbind, M_bind. destruct (m s); reflexivity. Qed.

Lemma state_of_try_catch {A} (m : M A) (h : JS -> M A) s :
  state_of (try_catch m h s)
  = match m s with
    | Ok _ s' => s'
    | Throw e s' => state_of (h e s')
    end.
Proof. unfold try_catch. destruct (m s); reflexivity. Qed.

Section Preserves.

Context (R : relation OBSWebSocket) `{!PreOrder R}.

Lemma preserves_ret {A} (a : A) : preserves R (mret a : M A).
Proof. intros s. reflexivity. Qed.

Lemma preserves_throw {A} (e : JS) : preserves R (throw e : M A).
Proof. intros s. reflexivity. Qed.

Lemma preserves_gets {A} (f : OBSWebSocket -> A) : preserves R (gets f).
Proof. intros s. reflexivity. Qed.

Lemma preserves_modify (f : OBSWebSocket -> OBSWebSocket) :
  (forall s, R s (f s)) -> preserves R (modify f).
Proof. intros H s. apply H. Qed.

Lemma preserves_bind {A B} (m : M A) (f : A -> M B) :
  preserves R m -> (forall a, preserves R (f a)) -> preserves R (m ≫= f).
Proof.
  intros Hm Hf s. rewrite state_of_bind.
  specialize (Hm s). destruct (m s) as [a s'|e s']; simpl in Hm; [|exact Hm].
  etransitivity; [exact Hm | apply Hf].
Qed.

Lemma preserves_try_catch {A} (m : M A) (h : JS -> M A) :
  preserves R m -> (forall e, preserves R (h e)) -> preserves R (try_catch m h).
Proof.
  intros Hm Hh s. rewrite state_of_try_catch.
  specialize (Hm s). destruct (m s) as [a s'|e s']; simpl in Hm; [exact Hm|].
  etransitivity; [exact Hm | apply Hh].
Qed.

Lemma preserves_mapM {A B} (f : A -> M B) (l : list A) :
  (forall a, preserves R (f a)) -> preserves R (mapM f l).
Proof.
  intros Hf. induction l as [|x l IH]; simpl.
  - apply preserves_ret.
  - apply preserves_bind; [apply Hf|]. intros y.
    apply preserves_bind; [apply IH|]. intros ys. apply preserves_ret.
Qed.

(** A dispatch preserves what every call of a member and every
    [console.error] preserves. *)
Lemma preserves_emit_with (call : Listener -> JS -> M unit) event data s :
  R s (set_emitted (emitted s ++ [(event, data)]) s) ->
  (forall l, l ∈ registered event s -> preserves R (call l data)) ->
  (forall e, preserves R (console_error event e)) ->
  R s (state_of (emit_with call event data s)).
Proof.
  intros Hem Hcall Hcon. unfold emit_with, registered in *. simpl in *.
  destruct (listeners s !! event) as [set|]; simpl in *; [|exact Hem].
  etransitivity; [exact Hem|].
  generalize (set_emitted (emitted s ++ [(event, data)]) s). 
  induction set as [|l set IH]; intros st; simpl; [reflexivity|].
  etransitivity.
  - apply (preserves_try_catch (call l data) (console_error event)).
    + apply Hcall. left.
    + apply Hcon.
  - apply IH. intros l' Hl'. apply Hcall. right. exact Hl'.
Qed.

End Preserves.

Ltac tc := try solve [apply _].

Ltac pres_step :=
  lazymatch goal with
  | |- forall _, _ => intros ?
  | |- preserves _ (@mbind _ _ _ _ _ _) => apply preserves_bind; tc
  | |- preserves _ (@mret _ _ _ _) => apply preserves_ret; tc
  | |- preserves _ (throw _) => apply preserves_throw; tc
  | |- preserves _ (gets _) => apply preserves_gets; tc
  | |- preserves _ (try_catch _ _) => apply preserves_try_catch; tc
  | |- preserves _ (mapM _ _) => apply preserves_mapM; tc
  | |- preserves _ (modify _) => apply preserves_modify
  | |- preserves _ (match ?x with _ => _ end) => destruct x
  end.

Ltac pres := repeat (pres_step; simpl).


Ltac frame_goal :=
  unfold keeps, core, session; simpl; repeat case_match; simpl; try reflexivity.

Ltac frame := pres; try solve [frame_goal].

(** ** What the registry operations and the handshake leave alone *)

Lemma log_same {T} (f : OBSWebSocket -> T) level message args s :
  (forall v s, f (set_logged v s) = f s) ->
  f (with_log level message args s) = f s.
Proof.
  intros H. unfold with_log. destruct (logger (options s) level); auto.
Qed.

Lemma log_keeps {T} (f : OBSWebSocket -> T) level message args :
  (forall v s, f (set_logged v s) = f s) ->
  preserves (keeps f) (log level message args).
Proof. intros H s. unfold log, keeps. simpl. apply log_same, H. Qed.

Lemma on_keeps_session event l : preserves (keeps (fun s => (session s, connects s))) (on event l).
Proof. unfold on. frame. Qed.

Lemma once_keeps_session event l : preserves (keeps (fun s => (session s, connects s))) (once event l).
Proof. unfold once, on. frame. Qed.

Lemma off_keeps_session event l :
  preserves (keeps (fun s => (session s, connects s, nextWrapper s))) (off event l).
Proof. unfold off. frame. Qed.

Lemma send_keeps_core message : preserves (keeps core) (send message).
Proof. unfold send. frame. apply log_keeps. reflexivity. Qed.

Lemma identify_finish_keeps_core message p :
  preserves (keeps core) (identify_finish message p).
Proof.
  unfold identify_finish, once, on, rejectConnect. frame. apply send_keeps_core.
Qed.

Lemma getProp_preserves R `{!PreOrder R} v k : preserves R (getProp v k).
Proof. unfold getProp. destruct v; pres. Qed.

Lemma helloHandler_keeps_core password p hello :
  preserves (keeps core) (helloHandler password p hello).
Proof.
  unfold helloHandler, identify, rejectConnect. 
  frame; try (apply getProp_preserves; tc); try apply identify_finish_keeps_core.
Qed.

Lemma invoke_keeps_core depth : forall event l data,
  preserves (keeps core) (invoke depth event l data).
Proof.
  induction depth as [|d IH]; intros event l data; simpl; [pres|].
  destruct l; simpl.
  - intros s. unfold keeps. simpl. destruct (userListener _ _ _); reflexivity.
  - apply preserves_bind; tc; [unfold off; frame | intros _; apply IH].
  - apply helloHandler_keeps_core.
  - unfold resolveConnect. frame; try (apply getProp_preserves; tc).
    + intros s. apply preserves_emit_with; tc.
      * reflexivity.
      * intros l _. apply IH.
      * intros e. unfold console_error. frame.
    + intros s. apply preserves_emit_with; tc.
      * reflexivity.
      * intros l _. apply IH.
      * intros e. unfold console_error. frame.
  - unfold rejectConnect. frame.
Qed.

Lemma emit_keeps_core event data : preserves (keeps core) (emit event data).
Proof.
  intros s. unfold emit. apply preserves_emit_with; tc.
  - reflexivity.
  - intros l _. apply invoke_keeps_core.
  - intros e. unfold console_error. frame.
Qed.


(** ** The listener registry stays well placed *)

Ltac inv_goal :=
  unfold maintains, names_ok, pending_bounded, timers_ok;
  simpl; repeat case_match; simpl; auto.

Ltac pres_with leaf := repeat first [ progress (pres_step; simpl) | leaf ].

Lemma log_maintains P level message args :
  (forall v s, P s -> P (set_logged v s)) ->
  preserves (maintains P) (log level message args).
Proof.
  intros H. unfold log. apply preserves_modify. intros s Hs.
  unfold with_log. destruct (logger (options s) level); auto.
Qed.

Lemma on_names_ok event l :
  listener_ok event l -> preserves (maintains names_ok) (on event l).
Proof.
  intros Hl. unfold on. apply preserves_modify. intros s Hs ev set l'. simpl.
  destruct (decide (ev = event)) as [->|Hne].
  - rewrite lookup_insert_eq. intros [= <-] Hin.
    assert (Hin' : l' ∈ default [] (listeners s !! event) ++ [l]).
    { case_bool_decide; [apply elem_of_app; left; exact Hin | exact Hin]. }
    apply elem_of_app in Hin' as [Hin'|Hin'].
    + destruct (listeners s !! event) as [set0|] eqn:E; simpl in Hin'.
      * eapply Hs; eauto.
      * inversion Hin'.
    + apply list_elem_of_singleton in Hin'. subst. exact Hl.
  - rewrite lookup_insert_ne by congruence. apply Hs.
Qed.

Lemma once_names_ok event inner :
  once_ok event inner -> preserves (maintains names_ok) (once event inner).
Proof.
  intros Hin. unfold once. pres_with idtac.
  - inv_goal.
  - apply on_names_ok. simpl. split; [reflexivity|]. destruct inner; auto.
Qed.

Lemma off_names_ok event l : preserves (maintains names_ok) (off event l).
Proof.
  unfold off. apply preserves_modify. intros s Hs.
  destruct (listeners s !! event) as [set|] eqn:E; [|exact Hs].
  case_decide.
  - intros ev set' l'. simpl. intros Hlk. apply lookup_delete_Some in Hlk as [_ Hlk].
    eapply Hs; eauto.
  - intros ev set' l'. simpl. destruct (decide (ev = event)) as [->|Hne].
    + rewrite lookup_insert_eq. intros [= <-] Hin.
      apply list_elem_of_filter in Hin as [_ Hin]. eapply Hs; eauto.
    + rewrite lookup_insert_ne by congruence. apply Hs.
Qed.

Lemma removeAllListeners_names_ok event :
  preserves (maintains names_ok) (removeAllListeners event).
Proof.
  unfold removeAllListeners. apply preserves_modify. intros s Hs.
  destruct (truthy_opt event).
  - intros ev set' l'. simpl. intros Hlk. apply lookup_delete_Some in Hlk as [_ Hlk].
    eapply Hs; eauto.
  - intros ev set' l'. simpl. rewrite lookup_empty. discriminate.
Qed.

Lemma send_names_ok message : preserves (maintains names_ok) (send message).
Proof.
  unfold send. pres_with ltac:(first [apply log_maintains; intros; assumption | solve [inv_goal]]).
Qed.

Lemma identify_finish_names_ok message p :
  preserves (maintains names_ok) (identify_finish message p).
Proof.
  unfold identify_finish, rejectConnect.
  pres_with ltac:(first [ apply once_names_ok; reflexivity
                        | apply send_names_ok
                        | solve [inv_goal] ]).
Qed.

Lemma helloHandler_names_ok password p hello :
  preserves (maintains names_ok) (helloHandler password p hello).
Proof.
  unfold helloHandler, identify, rejectConnect.
  pres_with ltac:(first [ apply getProp_preserves; tc
                        | apply identify_finish_names_ok
                        | solve [inv_goal] ]).
Qed.

Lemma console_error_maintains P event e :
  (forall v s, P s -> P (set_console v s)) ->
  preserves (maintains P) (console_error event e).
Proof.
  intros H. unfold console_error. apply preserves_modify. intros s Hs.
  apply H, Hs.
Qed.

Lemma invoke_names_ok depth : forall event l data,
  preserves (maintains names_ok) (invoke depth event l data).
Proof.
  induction depth as [|d IH]; intros event l data; simpl; [pres|].
  destruct l; simpl.
  - intros s. destruct (userListener _ _ _); simpl; inv_goal.
  - apply preserves_bind; tc; [apply off_names_ok | intros _; apply IH].
  - apply helloHandler_names_ok.
  - unfold resolveConnect.
    pres_with ltac:(first [ apply getProp_preserves; tc | solve [inv_goal] ]).
    + intros s. apply preserves_emit_with; tc.
      * inv_goal.
      * intros l _. apply IH.
      * intros e. apply console_error_maintains. auto.
    + intros s. apply preserves_emit_with; tc.
      * inv_goal.
      * intros l _. apply IH.
      * intros e. apply console_error_maintains. auto.
  - unfold rejectConnect. pres. inv_goal.
Qed.

Lemma emit_names_ok event data : preserves (maintains names_ok) (emit event data).
Proof.
  intros s. unfold emit. apply preserves_emit_with; tc.
  - inv_goal.
  - intros l _. apply invoke_names_ok.
  - intros e. apply console_error_maintains. auto.
Qed.


Lemma keeps_maintains {T A} (f : OBSWebSocket -> T) (P : OBSWebSocket -> Prop)
    (m : M A) :
  (forall s s', f s' = f s -> P s -> P s') ->
  preserves (keeps f) m -> preserves (maintains P) m.
Proof. intros HP Hm s. unfold maintains. apply HP, Hm. Qed.

Lemma keeps_sub {T U A} (f : OBSWebSocket -> T) (g : OBSWebSocket -> U) (m : M A) :
  (forall s s', f s' = f s -> g s' = g s) ->
  preserves (keeps f) m -> preserves (keeps g) m.
Proof. intros Hfg Hm s. apply Hfg, Hm. Qed.

Ltac core_eq :=
  let H := fresh in
  intros ? ? H; unfold core, session in H; simplify_eq; simpl in *.

Ltac op_unfold :=
  unfold exec, connect, onOpen, disconnect, call, callBatch, reidentify,
    handleMessage, handleEvent, handleRequestResponse, handleBatchResponse,
    handleClose, handleError, scheduleReconnect, reconnect_callback,
    identify_resume, set_readyState, setTimeout, clearTimeout, ws_close,
    rejected_future, next_request_id, resolveFuture, rejectFuture,
    resolveConnect, rejectConnect.

Lemma rejectAllPending_names_ok : preserves (maintains names_ok) rejectAllPending.
Proof. unfold rejectAllPending. pres. inv_goal. Qed.

Lemma pending_request_names_ok id message :
  preserves (maintains names_ok) (pending_request id message).
Proof.
  unfold pending_request, rejectFuture.
  pres_with ltac:(first [ apply send_names_ok | solve [inv_goal] ]).
Qed.

Ltac names_leaf :=
  first [ apply emit_names_ok
        | apply on_names_ok; exact I
        | apply once_names_ok; first [reflexivity | exact I]
        | apply off_names_ok
        | apply removeAllListeners_names_ok
        | apply send_names_ok
        | apply identify_finish_names_ok
        | apply rejectAllPending_names_ok
        | apply pending_request_names_ok
        | apply log_maintains; intros; assumption
        | apply getProp_preserves; tc
        | solve [inv_goal] ].

Lemma exec_names_ok i : preserves (maintains names_ok) (exec i).
Proof.
  destruct i; op_unfold; pres_with names_leaf.
Qed.


(** ** Pending entries refer to promises that exist *)

Lemma length_settle outcome p ps : length (settle outcome p ps) = length ps.
Proof.
  unfold settle. destruct (ps !! p) as [[]|]; try reflexivity.
  apply length_insert.
Qed.

Lemma length_reject_all (entries : list (string * nat)) e fs :
  length (fold_left (fun fs entry => settle (Rejected e) (snd entry) fs) entries fs)
  = length fs.
Proof.
  revert fs. induction entries as [|x entries IH]; intros fs; simpl; [reflexivity|].
  rewrite IH. apply length_settle.
Qed.

Lemma core_pending_bounded s s' :
  core s' = core s -> pending_bounded s -> pending_bounded s'.
Proof.
  intros H Hs id p. unfold core in H. simplify_eq.
  intros Hp. replace (futures s') with (futures s) by congruence.
  apply (Hs id). congruence.
Qed.

Lemma core_timers_ok s s' : core s' = core s -> timers_ok s -> timers_ok s'.
Proof.
  intros H Hs t d. unfold core in H. simplify_eq.
  intros Ht. replace (reconnectTimer s') with (reconnectTimer s) by congruence.
  apply (Hs t d). congruence.
Qed.

Lemma pending_bounded_settle outcome p s :
  pending_bounded s ->
  pending_bounded (set_futures (settle outcome p (futures s)) s).
Proof. intros Hs id q Hq. simpl in *. rewrite length_settle. eapply Hs, Hq. Qed.

Lemma pending_bounded_delete id s :
  pending_bounded s ->
  pending_bounded (set_pendingRequests (delete id (pendingRequests s)) s).
Proof.
  intros Hs id' q Hq. simpl in *. apply lookup_delete_Some in Hq as [_ Hq].
  eapply Hs, Hq.
Qed.

Lemma pending_bounded_grow x s :
  pending_bounded s -> pending_bounded (set_futures (futures s ++ [x]) s).
Proof.
  intros Hs id q Hq. simpl in *. rewrite length_app. simpl.
  specialize (Hs id q Hq). lia.
Qed.

Lemma rejectAllPending_pending_bounded :
  preserves (maintains pending_bounded) rejectAllPending.
Proof.
  unfold rejectAllPending. pres. intros Hs id p Hp. simpl in *.
  rewrite length_reject_all. eapply Hs, Hp.
Qed.

Lemma pending_request_pending_bounded id message :
  preserves (maintains pending_bounded) (pending_request id message).
Proof.
  intros s Hs. unfold pending_request.
  unfold mbind, M_bind, gets, modify, try_catch, mret, M_ret. simpl.
  set (s1 := set_pendingRequests _ _).
  assert (H1 : pending_bounded s1).
  { intros id' q. subst s1. simpl. rewrite length_app. simpl.
    destruct (decide (id' = id)) as [->|Hne].
    - rewrite lookup_insert_eq. intros [= <-]. lia.
    - rewrite lookup_insert_ne by congruence. intros Hq.
      specialize (Hs id' q Hq). lia. }
  pose proof (send_keeps_core message s1) as Hc.
  destruct (send message s1) as [[] s2|e s2]; simpl in *.
  - eapply core_pending_bounded; eauto.
  - unfold rejectFuture, modify. simpl.
    apply pending_bounded_settle. eapply core_pending_bounded; eauto.
Qed.

Ltac pending_leaf :=
  first [ apply (keeps_maintains core);
            [ exact core_pending_bounded
            | first [ apply emit_keeps_core | apply send_keeps_core
                    | apply identify_finish_keeps_core ] ]
        | apply rejectAllPending_pending_bounded
        | apply pending_request_pending_bounded
        | apply log_maintains; intros; assumption
        | apply getProp_preserves; tc
        | intros ? ?; first [ apply pending_bounded_settle; assumption
                            | apply pending_bounded_delete; assumption
                            | apply pending_bounded_grow; assumption ]
        | solve [inv_goal] ].

Lemma exec_pending_bounded i : preserves (maintains pending_bounded) (exec i).
Proof.
  destruct i; op_unfold; unfold once, on, off, removeAllListeners;
    pres_with pending_leaf.
  all: intros ? ? ?; simpl; rewrite lookup_empty; discriminate.
Qed.


(** ** Only the timer held by [reconnectTimer] can fire *)

Ltac run_op :=
  unfold mbind, M_bind, mret, M_ret, gets, modify, throw, try_catch; simpl.

Ltac run_cbn :=
  unfold mbind, M_bind, mret, M_ret, gets, modify, throw, try_catch; cbn.

Lemma core_timer_fields s s' : core s' = core s -> timer_fields s' = timer_fields s.
Proof. intros H. unfold core in H. unfold timer_fields. simplify_eq. congruence. Qed.

Lemma timer_fields_timers_ok s s' :
  timer_fields s' = timer_fields s -> timers_ok s -> timers_ok s'.
Proof.
  unfold timer_fields. intros [= Ht Hr] Hs t d. rewrite Ht, Hr. apply Hs.
Qed.

Lemma emit_keeps_timer_fields event data :
  preserves (keeps timer_fields) (emit event data).
Proof. eapply keeps_sub; [apply core_timer_fields | apply emit_keeps_core]. Qed.

Lemma send_keeps_timer_fields message :
  preserves (keeps timer_fields) (send message).
Proof. eapply keeps_sub; [apply core_timer_fields | apply send_keeps_core]. Qed.

Lemma identify_finish_keeps_timer_fields message p :
  preserves (keeps timer_fields) (identify_finish message p).
Proof.
  eapply keeps_sub; [apply core_timer_fields | apply identify_finish_keeps_core].
Qed.

Ltac timer_leaf :=
  first [ apply emit_keeps_timer_fields
        | apply send_keeps_timer_fields
        | apply identify_finish_keeps_timer_fields
        | apply getProp_preserves; tc
        | solve [unfold keeps, timer_fields; simpl; repeat case_match; reflexivity] ].

Lemma cancel_timers_ok :
  preserves (maintains timers_ok)
    (t ← gets reconnectTimer;
     match t with
     | Some timer => clearTimeout timer;; modify (set_reconnectTimer None)
     | None => mret tt
     end).
Proof.
  intros s Hs. unfold clearTimeout. run_op.
  destruct (reconnectTimer s) as [timer|] eqn:Er; simpl; [|exact Hs].
  intros t d. simpl. intros Ht. exfalso.
  destruct (timers s !! timer) as [[delay st]|] eqn:Et.
  - destruct st; simpl in Ht;
      try (pose proof (Hs t d Ht) as Heq; rewrite Er in Heq; congruence).
    destruct (decide (t = timer)) as [->|Hne].
    + rewrite list_lookup_insert_eq in Ht by (eapply lookup_lt_Some; eauto).
      congruence.
    + rewrite list_lookup_insert_ne in Ht by congruence.
      pose proof (Hs t d Ht) as Heq. rewrite Er in Heq. congruence.
  - pose proof (Hs t d Ht) as Heq. rewrite Er in Heq. congruence.
Qed.

Lemma scheduleReconnect_timers_ok : preserves (maintains timers_ok) scheduleReconnect.
Proof.
  intros s Hs. unfold scheduleReconnect, clearTimeout, setTimeout, log, with_log. run_op.
  assert (Hno : forall t d,
    match reconnectTimer s with
    | Some timer =>
        match timers s !! timer with
        | Some (delay, Armed) => <[timer := (delay, Cleared)]> (timers s)
        | _ => timers s
        end
    | None => timers s
    end !! t <> Some (d, Armed)).
  { intros t d Ht.
    destruct (reconnectTimer s) as [timer|] eqn:Er.
    - destruct (timers s !! timer) as [[delay st]|] eqn:Et.
      + destruct st;
          try (pose proof (Hs t d Ht) as Heq; rewrite Er in Heq; congruence).
        destruct (decide (t = timer)) as [->|Hne].
        * rewrite list_lookup_insert_eq in Ht by (eapply lookup_lt_Some; eauto).
          congruence.
        * rewrite list_lookup_insert_ne in Ht by congruence.
          pose proof (Hs t d Ht) as Heq. rewrite Er in Heq. congruence.
      + pose proof (Hs t d Ht) as Heq. rewrite Er in Heq. congruence.
    - pose proof (Hs t d Ht) as Heq. rewrite Er in Heq. congruence. }
  destruct (reconnectTimer s) as [timer|] eqn:Er; simpl.
  - destruct (timers s !! timer) as [[delay st]|] eqn:Et; simpl;
      repeat case_match; simpl; intros t d; simpl; intros Ht;
      (apply lookup_app_Some in Ht as [Ht|[Hge Ht]];
       [exfalso; eapply Hno; eauto
       | apply list_lookup_singleton_Some in Ht as [Hz _]; f_equal; 
         rewrite ?length_insert in *; lia]).
  - repeat case_match; simpl; intros t d; simpl; intros Ht;
      (apply lookup_app_Some in Ht as [Ht|[Hge Ht]];
       [exfalso; eapply Hno; eauto
       | apply list_lookup_singleton_Some in Ht as [Hz _]; f_equal; lia]).
Qed.

Lemma timer_fired_timers_ok timer :
  preserves (maintains timers_ok) (exec (TimerFired timer)).
Proof.
  intros s Hs. unfold exec. rewrite state_of_bind. simpl.
  destruct (timers s !! timer) as [[delay st]|] eqn:Et; simpl; [|exact Hs].
  destruct st; simpl; try exact Hs.
  unfold reconnect_callback.
  rewrite state_of_bind; simpl. rewrite state_of_bind; simpl.
  rewrite state_of_bind.
  match goal with |- context [emit "Reconnecting" JUndefined ?st] =>
    pose proof (emit_keeps_timer_fields "Reconnecting" JUndefined st) as H1;
    assert (H0 : timers_ok st) end.
  { intros t d. simpl. intros Ht.
    destruct (decide (t = timer)) as [->|Hne].
    - rewrite list_lookup_insert_eq in Ht by (eapply lookup_lt_Some; eauto).
      congruence.
    - rewrite list_lookup_insert_ne in Ht by congruence.
      pose proof (Hs t d Ht) as Heq. pose proof (Hs timer delay Et). congruence. }
  match goal with |- context [emit "Reconnecting" JUndefined ?st] =>
    destruct (emit "Reconnecting" JUndefined st) as [[] s1|e s1] eqn:E1 end;
    simpl in *.
  - apply (timer_fields_timers_ok _ _ H1) in H0.
    rewrite state_of_bind; simpl.
    match goal with |- context [emit "obs:reconnect" JUndefined ?st] =>
      pose proof (emit_keeps_timer_fields "obs:reconnect" JUndefined st) as H2 end.
    eapply timer_fields_timers_ok; [exact H2|].
    intros t d. simpl. apply H0.
  - eapply timer_fields_timers_ok; eauto.
Qed.

Lemma handleClose_timers_ok code reason :
  preserves (maintains timers_ok) (handleClose code reason).
Proof.
  unfold handleClose, rejectAllPending.
  pres_with ltac:(first [ apply scheduleReconnect_timers_ok
                        | apply (keeps_maintains timer_fields);
                            [ apply timer_fields_timers_ok
                            | first [ apply emit_keeps_timer_fields
                                    | apply log_keeps; reflexivity ] ]
                        | solve [inv_goal] ]).
Qed.

Lemma disconnect_timers_ok : preserves (maintains timers_ok) disconnect.
Proof.
  unfold disconnect, rejectAllPending, ws_close.
  apply preserves_bind; tc; [pres; inv_goal | intros _].
  apply preserves_bind; tc; [apply cancel_timers_ok | intros _].
  pres_with ltac:(first [ apply cancel_timers_ok
                        | apply (keeps_maintains timer_fields);
                            [ apply timer_fields_timers_ok
                            | apply emit_keeps_timer_fields ]
                        | solve [inv_goal] ]).
Qed.

Lemma exec_timers_ok i : preserves (maintains timers_ok) (exec i).
Proof.
  destruct i;
    try (apply (keeps_maintains timer_fields); [apply timer_fields_timers_ok|];
         op_unfold; unfold pending_request, rejectAllPending, once, on, off,
           removeAllListeners, rejectFuture;
         pres_with ltac:(first [timer_leaf | apply log_keeps; reflexivity]); fail).
  - apply disconnect_timers_ok.
  - unfold exec. pres_with ltac:(first [ apply handleClose_timers_ok | solve [inv_goal] ]).
    all: unfold set_readyState; pres; inv_goal.
  - apply timer_fired_timers_ok.
Qed.

Lemma exec_wf i : preserves (maintains wf) (exec i).
Proof.
  intros s [H1 H2 H3]. split.
  - apply exec_names_ok, H1.
  - apply exec_pending_bounded, H2.
  - apply exec_timers_ok, H3.
Qed.

Lemma new_wf opts : wf (new_OBSWebSocket opts).
Proof.
  split.
  - intros ev set l. simpl. rewrite lookup_empty. discriminate.
  - intros id p. simpl. rewrite lookup_empty. discriminate.
  - intros t d. simpl. discriminate.
Qed.

(** Every state a run can reach is well formed. *)
Lemma reachable_wf s : reachable s -> wf s.
Proof.
  induction 1 as [opts|s i _ IH].
  - apply new_wf.
  - apply exec_wf, IH.
Qed.


(* ===================================================================== *)
(** * Request correlation *)
(* ===================================================================== *)

Lemma settle_lookup_eq outcome p ps :
  ps !! p = Some Pending -> settle outcome p ps !! p = Some outcome.
Proof.
  intros H. unfold settle. rewrite H.
  apply list_lookup_insert_eq. eapply lookup_lt_Some, H.
Qed.

Lemma settle_lookup_ne outcome p q ps : q <> p -> settle outcome p ps !! q = ps !! q.
Proof.
  intros H. unfold settle. destruct (ps !! p) as [[]|]; try reflexivity.
  apply list_lookup_insert_ne. congruence.
Qed.

Lemma settle_settled outcome p ps :
  ps !! p <> Some Pending -> settle outcome p ps = ps.
Proof. intros H. unfold settle. destruct (ps !! p) as [[]|]; congruence. Qed.

Lemma mret_run {A} (a : A) s : (mret a : M A) s = Ok a s.
Proof. reflexivity. Qed.


Lemma handleRequestResponse_unknown m s :
  pendingRequests s !! response_requestId m = None ->
  handleRequestResponse m s
  = log LWarn "Received response for unknown request:"
        [JStr (response_requestId m)] s.
Proof. intros H. unfold handleRequestResponse. run_op. rewrite H. reflexivity. Qed.

Lemma handleRequestResponse_pending m s p :
  pendingRequests s !! response_requestId m = Some p ->
  handleRequestResponse m s
  = Ok tt (set_futures
             (settle (response_outcome m) p (futures s))
             (set_pendingRequests
                (delete (response_requestId m) (pendingRequests s)) s)).
Proof.
  intros H. unfold handleRequestResponse, response_outcome, resolveFuture,
    rejectFuture. run_op. rewrite H. simpl.
  destruct (result (requestStatus m)); reflexivity.
Qed.

Lemma handleBatchResponse_unknown m s :
  pendingRequests s !! batchResponse_requestId m = None ->
  handleBatchResponse m s
  = log LWarn "Received batch response for unknown request:"
        [JStr (batchResponse_requestId m)] s.
Proof. intros H. unfold handleBatchResponse. run_op. rewrite H. reflexivity. Qed.





(** ** Sending and recording a request *)

Lemma send_open message s i sock :
  ws s = Some i -> sockets s !! i = Some sock -> readyState sock = OPEN ->
  send message s
  = Ok tt (set_sockets
             (<[i := push_sent message sock]> (sockets s))
             (with_log LDebug "Sending message:" [JNum (OpCode message)] s)).
Proof.
  intros Hw Hs Hr. unfold send, log. run_cbn. rewrite Hw. cbn. rewrite Hs. cbn.
  rewrite decide_True by exact Hr. cbn.
  rewrite (log_same sockets) by reflexivity. reflexivity.
Qed.

Lemma send_not_open message s :
  ~ socket_open s -> send message s = Throw not_connected s.
Proof.
  intros Hn. unfold send. run_op.
  destruct (ws s) as [i|] eqn:Hw; simpl; [|reflexivity].
  destruct (sockets s !! i) as [sock|] eqn:Hs; simpl; [|reflexivity].
  destruct (decide (readyState sock = OPEN)) as [Hr|]; [|reflexivity].
  exfalso. apply Hn. exists i, sock. auto.
Qed.

Lemma pending_request_sent requestId message s i sock :
  ws s = Some i -> sockets s !! i = Some sock -> readyState sock = OPEN ->
  pending_request requestId message s
  = Ok (length (futures s))
       (set_sockets
          (<[i := push_sent message sock]> (sockets s))
          (with_log LDebug "Sending message:" [JNum (OpCode message)]
             (set_pendingRequests
                (<[requestId := length (futures s)]> (pendingRequests s))
                (set_futures (futures s ++ [Pending]) s)))).
Proof.
  intros Hw Hs Hr. unfold pending_request.
  unfold try_catch, gets, modify, mret, M_ret. unfold mbind, M_bind. simpl.
  erewrite send_open; simpl; eauto.
Qed.

(** A call that cannot be sent is rejected, and its entry stays in the
    pending map. *)
Lemma pending_request_not_sent requestId message s :
  ~ socket_open s ->
  pending_request requestId message s
  = Ok (length (futures s))
       (set_futures
          (futures s ++ [Rejected not_connected])
          (set_pendingRequests
             (<[requestId := length (futures s)]> (pendingRequests s)) s)).
Proof.
  intros Hn. unfold pending_request, rejectFuture.
  unfold try_catch, gets, modify, mret, M_ret. unfold mbind, M_bind. simpl.
  rewrite send_not_open.
  - simpl. f_equal. unfold settle. simpl.
    rewrite lookup_app_r by lia. rewrite Nat.sub_diag. simpl.
    rewrite insert_app_r_alt by lia. rewrite Nat.sub_diag. reflexivity.
  - intros (i & sock & Hw & Hs & Hr). apply Hn. exists i, sock. auto.
Qed.

Lemma call_sent requestType requestData s i sock :
  connected s = true ->
  ws s = Some i -> sockets s !! i = Some sock -> readyState sock = OPEN ->
  let requestId := generateRequestId (nextRequestId s) in
  let message := Request {| request_requestType := requestType;
                            request_requestId := requestId;
                            request_requestData := requestData |} in
  call requestType requestData s
  = Ok (length (futures s))
       (set_sockets
          (<[i := push_sent message sock]> (sockets s))
          (with_log LDebug "Sending message:" [JNum 6]
             (set_pendingRequests
                (<[requestId := length (futures s)]> (pendingRequests s))
                (set_futures (futures s ++ [Pending])
                   (set_nextRequestId (S (nextRequestId s)) s))))).
Proof.
  intros Hc Hw Hs Hr. simpl. unfold call, next_request_id.
  unfold gets, modify, mret, M_ret. unfold mbind, M_bind. simpl.
  rewrite Hc. simpl.
  erewrite pending_request_sent; simpl; eauto.
Qed.


Lemma first_response_snoc requestId rs r :
  first_response requestId (rs ++ [r])
  = match first_response requestId rs with
    | Some x => Some x
    | None => if bool_decide (response_requestId r = requestId) then Some r else None
    end.
Proof.
  unfold first_response. induction rs as [|x rs IH]; cbn.
  - reflexivity.
  - destruct (bool_decide (response_requestId x = requestId)); [reflexivity|exact IH].
Qed.

Lemma run_snoc inputs i s : run (inputs ++ [i]) s = step i (run inputs s).
Proof. unfold run. rewrite fold_left_app. reflexivity. Qed.

(** ** A series of calls, then a series of responses *)

Section Correlation.

Variables (s : OBSWebSocket) (i : nat) (sock : WebSocket).
Hypothesis Hbounded : pending_bounded s.
Hypothesis Hconnected : connected s = true.
Hypothesis Hws : ws s = Some i.
Hypothesis Hsock : sockets s !! i = Some sock.
Hypothesis Hopen : readyState sock = OPEN.

Local Abbreviation n0 := (nextRequestId s).
Local Abbreviation p0 := (length (futures s)).

Lemma issue_correlated cs :
  NoDup (generateRequestId <$> seq n0 (length cs)) ->
  let st := run (issue cs) s in
  correlated s i (length cs) [] st
  /\ connected st = true /\ ws st = Some i /\ nextRequestId st = n0 + length cs.
Proof.
  induction cs as [|c cs IH] using rev_ind; intros Hnd st.
  - subst st. cbn. split; [|rewrite Nat.add_0_r; auto].
    split.
    + lia.
    + eauto.
    + intros k Hk. lia.
    + intros id p Hp. left. apply (Hbounded id p Hp).
  - subst st. rewrite length_app in *. cbn in *.
    replace (length cs + 1) with (S (length cs)) in * by lia.
    rewrite seq_S, fmap_app in Hnd. cbn in Hnd.
    apply NoDup_app in Hnd as (Hnd & Hfresh & _).
    destruct (IH Hnd) as ([Hlen (sk & Hsk & Hskopen) Hown Hothers] & Hc & Hw & Hn).
    unfold issue. rewrite map_app. cbn. rewrite run_snoc. fold (issue cs).
    set (st := run (issue cs) s) in *.
    unfold step, exec. rewrite state_of_bind.
    rewrite (call_sent _ _ st i sk Hc Hw Hsk Hskopen). cbn.
    rewrite Hn, Hlen.
    split; [split|]; cbn.
    + rewrite (log_same futures) by reflexivity. cbn.
      rewrite length_app. cbn. lia.
    + exists (push_sent
                (Request {| request_requestType := c.1;
                            request_requestId := generateRequestId (n0 + length cs);
                            request_requestData := c.2 |}) sk).
      split; [|exact Hskopen].
      apply list_lookup_insert_eq. eapply lookup_lt_Some, Hsk.
    + intros k Hk. cbn.
      rewrite (log_same futures), (log_same pendingRequests) by reflexivity. cbn.
      destruct (decide (k = length cs)) as [->|Hne].
      * rewrite lookup_insert_eq. split; [|reflexivity].
        rewrite lookup_app_r by lia. rewrite Hlen, Nat.sub_diag. reflexivity.
      * assert (Hk' : k < length cs) by lia.
        specialize (Hown k Hk'). cbn in Hown. destruct Hown as [Hf Hp].
        rewrite lookup_insert_ne.
        -- split; [|exact Hp]. rewrite lookup_app_l by lia. exact Hf.
        -- intros Heq. apply (Hfresh (generateRequestId (n0 + k))).
           ++ apply list_elem_of_fmap. exists (n0 + k). split; [reflexivity|].
              apply elem_of_seq. lia.
           ++ rewrite <- Heq. left.
    + intros id p. rewrite (log_same pendingRequests) by reflexivity. cbn.
      destruct (decide (id = generateRequestId (n0 + length cs))) as [->|Hne].
      * rewrite lookup_insert_eq. intros [= <-]. right. exists (length cs).
        split; [lia|]. split; reflexivity.
      * rewrite lookup_insert_ne by congruence. intros Hp.
        destruct (Hothers id p Hp) as [Hlt|(k & Hk & -> & ->)]; [left; exact Hlt|].
        right. exists k. split; [lia|]. split; reflexivity.
    + unfold connected in *. cbn.
      rewrite (log_same isConnected), (log_same isIdentified),
        (log_same ws), (log_same nextRequestId) by reflexivity. cbn.
      repeat split; auto.
Qed.

Lemma step_response r st sk :
  sockets st !! i = Some sk -> readyState sk = OPEN ->
  step (SocketMessage i (ParsedMessage (RequestResponse r))) st
  = state_of (handleRequestResponse r
                (with_log LDebug "Received message:" [JNum 7] st)).
Proof.
  intros Hsk Hr. unfold step, exec, socket_state. rewrite state_of_bind. cbn.
  rewrite Hsk. cbn. rewrite Hr. unfold handleMessage.
  rewrite state_of_try_catch. unfold mbind, M_bind. 
  change (log LDebug "Received message:"
            [JNum (OpCode (RequestResponse r))] st)
    with (Ok tt (with_log LDebug "Received message:" [JNum 7] st)).
  cbn.
  set (st' := with_log LDebug "Received message:" [JNum 7] st).
  destruct (pendingRequests st' !! response_requestId r) as [p|] eqn:Hp.
  - rewrite (handleRequestResponse_pending _ _ _ Hp). reflexivity.
  - rewrite (handleRequestResponse_unknown _ _ Hp). reflexivity.
Qed.

Lemma respond_correlated n rs :
  NoDup (generateRequestId <$> seq n0 n) ->
  forall st, correlated s i n [] st -> correlated s i n rs (run (respond i rs) st).
Proof.
  intros Hnd st Hst. induction rs as [|r rs IH] using rev_ind.
  - exact Hst.
  - unfold respond. rewrite map_app. cbn. rewrite run_snoc. fold (respond i rs).
    destruct IH as [Hlen (sk & Hsk & Hskopen) Hown Hothers].
    set (st1 := run (respond i rs) st) in *.
    rewrite (step_response r st1 sk Hsk Hskopen).
    set (st2 := with_log LDebug "Received message:" [JNum 7] st1).
    assert (Hf2 : futures st2 = futures st1) by (apply (log_same futures); reflexivity).
    assert (Hp2 : pendingRequests st2 = pendingRequests st1)
      by (apply (log_same pendingRequests); reflexivity).
    assert (Hs2 : sockets st2 = sockets st1) by (apply (log_same sockets); reflexivity).
    destruct (pendingRequests st2 !! response_requestId r) as [p|] eqn:Hp.
    + rewrite (handleRequestResponse_pending _ _ _ Hp). cbn.
      rewrite Hp2 in Hp.
      split; cbn; rewrite ?Hf2, ?Hp2, ?Hs2.
      * rewrite length_settle. exact Hlen.
      * eauto.
      * intros k Hk. rewrite first_response_snoc.
        specialize (Hown k Hk).
        destruct (first_response (generateRequestId (n0 + k)) rs) as [x|] eqn:Hfirst.
        -- destruct Hown as [Hf Hnone]. split.
           ++ rewrite settle_lookup_ne; [exact Hf|].
              intros <-. destruct (Hothers _ _ Hp) as [Hlt|(k' & Hk' & Hid & Hpk)];
                [lia|].
              assert (k' = k) as -> by lia. rewrite Hid in Hp. congruence.
           ++ apply lookup_delete_None. right. exact Hnone.
        -- destruct Hown as [Hf Hsome]. case_bool_decide as Hid.
           ++ rewrite Hid in Hp. assert (p = p0 + k) as -> by congruence.
              split; [apply settle_lookup_eq, Hf|].
              rewrite Hid. apply lookup_delete_eq.
           ++ split.
              ** rewrite settle_lookup_ne; [exact Hf|].
                 intros <-.
                 destruct (Hothers _ _ Hp) as [Hlt|(k' & Hk' & Hid' & Hpk)]; [lia|].
                 assert (k' = k) as -> by lia. congruence.
              ** rewrite lookup_delete_ne by congruence. exact Hsome.
      * intros id q Hq. apply lookup_delete_Some in Hq as [_ Hq].
        apply (Hothers id q Hq).
    + rewrite (handleRequestResponse_unknown _ _ Hp). unfold log, modify. cbn.
      rewrite Hp2 in Hp.
      split.
      * rewrite (log_same futures) by reflexivity. rewrite Hf2. exact Hlen.
      * rewrite (log_same sockets) by reflexivity. rewrite Hs2. eauto.
      * intros k Hk. rewrite first_response_snoc.
        rewrite (log_same futures), (log_same pendingRequests) by reflexivity.
        rewrite Hf2, Hp2.
        specialize (Hown k Hk).
        destruct (first_response (generateRequestId (n0 + k)) rs) as [x|] eqn:Hfirst;
          [exact Hown|].
        destruct Hown as [Hf Hsome]. case_bool_decide as Hid; [|auto].
        rewrite Hid in Hp. congruence.
      * intros id q. rewrite (log_same pendingRequests) by reflexivity.
        rewrite Hp2. apply Hothers.
Qed.

End Correlation.


(* ===================================================================== *)
(** * Teardown *)
(* ===================================================================== *)





Lemma emit_core event data st : core (state_of (emit event data st)) = core st.
Proof. apply emit_keeps_core. Qed.






(* ===================================================================== *)
(** * Dispatch to listeners *)
(* ===================================================================== *)

Global Instance quiet_for_preorder event : PreOrder (quiet_for event).
Proof.
  split.
  - intros s. split; [reflexivity|]. exists []. rewrite app_nil_r. reflexivity.
  - intros s1 s2 s3 [H12 (e12 & Hc12)] [H23 (e23 & Hc23)]. split; [congruence|].
    exists (e12 ++ e23). rewrite Hc23, Hc12, app_assoc. reflexivity.
Qed.

Lemma quiet_for_same event s s' :
  delivered s' = delivered s -> console s' = console s -> quiet_for event s s'.
Proof.
  intros Hd Hc. split.
  - unfold deliveries_of. rewrite Hd. reflexivity.
  - exists []. rewrite app_nil_r. exact Hc.
Qed.

Ltac quiet_goal :=
  intros; apply quiet_for_same; simpl; repeat case_match; reflexivity.

Lemma log_quiet event level message args :
  preserves (quiet_for event) (log level message args).
Proof.
  intros s. apply quiet_for_same; unfold log; simpl; apply log_same; reflexivity.
Qed.

Lemma off_quiet event ev l : preserves (quiet_for event) (off ev l).
Proof. unfold off. pres. quiet_goal. Qed.

Lemma console_error_quiet event ev e : preserves (quiet_for event) (console_error ev e).
Proof.
  intros s. split; [reflexivity|]. simpl. eauto.
Qed.

Lemma send_quiet event message : preserves (quiet_for event) (send message).
Proof.
  unfold send. pres_with ltac:(first [apply log_quiet | solve [quiet_goal]]).
Qed.

Lemma helloHandler_quiet event password p hello :
  preserves (quiet_for event) (helloHandler password p hello).
Proof.
  unfold helloHandler, identify, identify_finish, rejectConnect, once, on.
  pres_with ltac:(first [ apply getProp_preserves; tc | apply send_quiet
                        | solve [quiet_goal] ]).
Qed.

(** A call made for another event delivers nothing under [event]. *)
Lemma invoke_quiet event depth : forall ev l data,
  event <> ev -> event <> "Identified" -> event <> "ConnectionOpened" ->
  preserves (quiet_for event) (invoke depth ev l data).
Proof.
  induction depth as [|d IH]; intros ev l data Hev Hi Hc; simpl; [pres|].
  destruct l; simpl.
  - intros s. split; simpl.
    + destruct (userListener _ _ _); simpl; unfold deliveries_of; simpl;
        rewrite filter_app; simpl;
        rewrite filter_cons_False
          by (unfold delivery_event; simpl; intros ?; congruence);
        rewrite filter_nil, app_nil_r; reflexivity.
    + exists []. rewrite app_nil_r. destruct (userListener _ _ _); reflexivity.
  - apply preserves_bind; tc; [apply off_quiet | intros _; apply IH; assumption].
  - apply helloHandler_quiet.
  - unfold resolveConnect.
    pres_with ltac:(first [ apply getProp_preserves; tc | solve [quiet_goal] ]).
    + intros s. apply preserves_emit_with; tc.
      * quiet_goal.
      * intros l _. apply IH; congruence.
      * intros e. apply console_error_quiet.
    + intros s. apply preserves_emit_with; tc.
      * quiet_goal.
      * intros l _. apply IH; congruence.
      * intros e. apply console_error_quiet.
  - unfold rejectConnect. pres. quiet_goal.
Qed.

(** One turn of the loop of [emit] for a caller's listener. *)
Lemma turn_user depth event id data st :
  let thrown := userListener id data (delivered st) in
  let st' := state_of (try_catch (invoke (S depth) event (UserListener id) data)
                                 (console_error event) st) in
  deliveries_of event st' = deliveries_of event st ++ [(event, id, data, thrown)]
  /\ console st' = console st ++ match thrown with
                                 | Some e => [(event, e)]
                                 | None => []
                                 end.
Proof.
  simpl. unfold try_catch, console_error, modify, deliveries_of. simpl.
  destruct (userListener id data (delivered st)) as [e|]; simpl;
    rewrite filter_app; simpl;
    rewrite filter_cons_True by reflexivity; rewrite filter_nil;
    rewrite ?app_nil_r; auto.
Qed.

(** One turn of the loop of [emit], for a well-placed member of the set. *)
Lemma turn depth event l data st :
  listener_ok event l ->
  let st' := state_of (try_catch (invoke (S (S depth)) event l data)
                                 (console_error event) st) in
  exists extra,
    console st' = console st ++ extra
    /\ match user_id l with
       | Some id =>
           let thrown := userListener id data (delivered st) in
           deliveries_of event st' = deliveries_of event st ++ [(event, id, data, thrown)]
           /\ forall e, thrown = Some e -> (event, e) ∈ extra
       | None => deliveries_of event st' = deliveries_of event st
       end.
Proof.
  intros Hok. destruct l as [id|w ev inner|? ?|?|?]; simpl in Hok; try contradiction.
  - destruct (turn_user (S depth) event id data st) as (Hd & Hc).
    eexists. split; [exact Hc|]. simpl. split; [exact Hd|].
    intros e ->. left.
  - destruct Hok as [-> Hinner].
    destruct inner as [id| | | |]; simpl in Hinner; try contradiction.
    + (* a caller's listener registered with [once] *)
      simpl user_id. cbv zeta.
      set (l := OnceWrapper w event (UserListener id)).
      assert (Hoff : exists st0, off event l st = Ok tt st0
                /\ delivered st0 = delivered st /\ console st0 = console st).
      { unfold off, modify. eexists. split; [reflexivity|].
        destruct (listeners st !! event); [case_decide|]; simpl; auto. }
      destruct Hoff as (st0 & Hoff & Hd0 & Hc0).
      destruct (turn_user depth event id data st0) as (Hd & Hc).
      assert (Heq : state_of (try_catch (invoke (S (S depth)) event l data)
                                (console_error event) st)
                    = state_of (try_catch (invoke (S depth) event (UserListener id) data)
                                  (console_error event) st0)).
      { subst l. simpl invoke at 1. unfold try_catch at 1.
        unfold mbind, M_bind. rewrite Hoff. reflexivity. }
      rewrite Heq. unfold deliveries_of in *. rewrite Hd0, Hc0 in *.
      eexists. split; [exact Hc|]. simpl. split; [exact Hd|].
      intros e ->. left.
    + (* the Hello handler *)
      simpl user_id. cbv zeta.
      assert (H : quiet_for event st
        (state_of (try_catch
           (invoke (S (S depth)) event
              (OnceWrapper w event (HelloHandler password promise)) data)
           (console_error event) st))).
      { apply preserves_try_catch; tc; [|intros e; apply console_error_quiet].
        simpl. apply preserves_bind; tc; [apply off_quiet|intros _].
        apply helloHandler_quiet. }
      destruct H as [Hd (extra & Hc)]. exists extra. auto.
    + (* the Identified handler *)
      simpl user_id. cbv zeta. subst event.
      assert (H : quiet_for "obs:Identified" st
        (state_of (try_catch
           (invoke (S (S depth)) "obs:Identified"
              (OnceWrapper w "obs:Identified" (IdentifiedHandler promise)) data)
           (console_error "obs:Identified") st))).
      { apply preserves_try_catch; tc; [|intros e; apply console_error_quiet].
        simpl. apply preserves_bind; tc; [apply off_quiet|intros _].
        unfold resolveConnect.
        pres_with ltac:(first [ apply getProp_preserves; tc | solve [quiet_goal] ]).
        - intros s. apply preserves_emit_with; tc.
          + quiet_goal.
          + intros l _. apply invoke_quiet; discriminate.
          + intros e. apply console_error_quiet.
        - intros s. apply preserves_emit_with; tc.
          + quiet_goal.
          + intros l _. apply invoke_quiet; discriminate.
          + intros e. apply console_error_quiet. }
      destruct H as [Hd (extra & Hc)]. exists extra. auto.
    + (* the error handler *)
      simpl user_id. cbv zeta.
      assert (H : quiet_for event st
        (state_of (try_catch
           (invoke (S (S depth)) event
              (OnceWrapper w event (ErrorHandler promise)) data)
           (console_error event) st))).
      { apply preserves_try_catch; tc; [|intros e; apply console_error_quiet].
        simpl. apply preserves_bind; tc; [apply off_quiet|intros _].
        unfold rejectConnect. pres. quiet_goal. }
      destruct H as [Hd (extra & Hc)]. exists extra. auto.
Qed.

(** The whole loop. *)
Lemma dispatch_deliveries depth event data set :
  Forall (listener_ok event) set ->
  forall st,
    let st' := fold_left
                 (fun st listener =>
                    state_of (try_catch (invoke (S (S depth)) event listener data)
                                        (console_error event) st))
                 set st in
    exists new extra,
      deliveries_of event st' = deliveries_of event st ++ new
      /\ console st' = console st ++ extra
      /\ delivery_call <$> new = (fun id => (event, id, data)) <$> omap user_id set
      /\ forall d e, d ∈ new -> delivery_thrown d = Some e -> (event, e) ∈ extra.
Proof.
  induction 1 as [|l set Hl _ IH]; intros st; cbn [fold_left].
  - exists [], []. rewrite !app_nil_r. repeat split; auto.
    intros d e Hd. inversion Hd.
  - destruct (turn depth event l data st Hl) as (extra1 & Hc1 & H1).
    set (st1 := state_of (try_catch (invoke (S (S depth)) event l data)
                                    (console_error event) st)) in *.
    destruct (IH st1) as (new2 & extra2 & Hd2 & Hc2 & Hcalls & Hthrown).
    cbn [omap list_omap].
    destruct (user_id l) as [id|] eqn:Hid.
    + destruct H1 as [Hd1 Hth1].
      exists ((event, id, data, userListener id data (delivered st)) :: new2),
             (extra1 ++ extra2).
      split; [|split; [|split]].
      * rewrite Hd2, Hd1, <- app_assoc. reflexivity.
      * rewrite Hc2, Hc1, <- app_assoc. reflexivity.
      * rewrite !fmap_cons. f_equal. exact Hcalls.
      * intros d e Hd Hth. apply elem_of_app.
        apply elem_of_cons in Hd as [->|Hd].
        -- left. apply Hth1. exact Hth.
        -- right. eapply Hthrown; eauto.
    + exists new2, (extra1 ++ extra2).
      split; [|split; [|split]].
      * rewrite Hd2, H1. reflexivity.
      * rewrite Hc2, Hc1, <- app_assoc. reflexivity.
      * exact Hcalls.
      * intros d e Hd Hth. apply elem_of_app. right. eapply Hthrown; eauto.
Qed.

Lemma emit_ok event data s : exists s', emit event data s = Ok tt s'.
Proof.
  unfold emit, emit_with. destruct (listeners _ !! event); eauto.
Qed.

Lemma emit_deliveries event data s :
  names_ok s ->
  let s' := state_of (emit event data s) in
  exists new extra,
    deliveries_of event s' = deliveries_of event s ++ new
    /\ console s' = console s ++ extra
    /\ delivery_call <$> new = (fun id => (event, id, data)) <$> user_ids event s
    /\ forall d e, d ∈ new -> delivery_thrown d = Some e -> (event, e) ∈ extra.
Proof.
  intros Hok. unfold emit, emit_with, user_ids, registered. simpl.
  destruct (listeners s !! event) as [set|] eqn:Hset; simpl.
  - assert (Hall : Forall (listener_ok event) set).
    { apply Forall_forall. intros l Hl. eapply Hok; eauto. }
    destruct (dispatch_deliveries (2 + spare) event data set Hall
                (set_emitted (emitted s ++ [(event, data)]) s))
      as (new & extra & Hd & Hc & Hcalls & Hth).
    exists new, extra. auto.
  - exists [], []. rewrite !app_nil_r. repeat split; auto.
    intros d e Hd. inversion Hd.
Qed.


(* ===================================================================== *)
(** * The handshake *)
(* ===================================================================== *)

Lemma encode_app a b : Crypto.encode (a +:+ b) = Crypto.encode a ++ Crypto.encode b.
Proof.
  unfold Crypto.encode. induction a as [|c a IH]; simpl; [reflexivity|].
  f_equal. exact IH.
Qed.

Lemma generateAuth_reference password salt challenge :
  generateAuth password salt challenge = reference_response password salt challenge.
Proof.
  unfold generateAuth, reference_response, reference_secret.
  rewrite !encode_app. reflexivity.
Qed.


(** A Hello that asks for authentication, with a password: [identify]
    waits for [generateAuth]. *)
Lemma helloHandler_password h a password p s :
  authentication h = Some a -> truthy_string password = true ->
  helloHandler (Some password) p (js_of_hello h) s
  = Ok tt (set_awaiting
             (awaiting s ++
              [Some {| task_message :=
                         {| identify_rpcVersion := JNum (hello_rpcVersion h);
                            identify_authentication := None;
                            identify_eventSubscriptions :=
                              eventSubscriptions (options s) |};
                       task_password := password;
                       task_salt := JStr (salt a);
                       task_challenge := JStr (challenge a);
                       task_promise := p |}]) s).
Proof.
  intros Ha Hp. unfold helloHandler, identify, js_of_hello.
  rewrite Ha. run_op. rewrite Hp. reflexivity.
Qed.

Lemma identify_finish_ok message p s :
  exists s', identify_finish message p s = Ok tt s'.
Proof.
  unfold identify_finish, try_catch, rejectConnect, modify.
  match goal with |- context [match ?m with _ => _ end] =>
    destruct m as [[] s'|e s'] end; eauto.
Qed.

(** A Hello that asks for no authentication: the Identify frame goes out
    at once, without an [authentication] field. *)
Lemma helloHandler_no_authentication h password p s :
  authentication h = None ->
  helloHandler password p (js_of_hello h) s
  = identify_finish
      {| identify_rpcVersion := JNum (hello_rpcVersion h);
         identify_authentication := None;
         identify_eventSubscriptions := eventSubscriptions (options s) |} p s.
Proof.
  intros Ha. unfold helloHandler, identify, js_of_hello.
  rewrite Ha. run_op.
  match goal with |- context [identify_finish ?m ?q ?st] =>
    destruct (identify_finish_ok m q st) as (s' & ->) end.
  reflexivity.
Qed.

Lemma identify_finish_sockets message p s i sock :
  ws s = Some i -> sockets s !! i = Some sock -> readyState sock = OPEN ->
  sockets (state_of (identify_finish message p s))
  = <[i := push_sent (Identify message) sock]> (sockets s).
Proof.
  intros Hw Hs Hr. unfold identify_finish, once, on.
  unfold try_catch, gets, modify. unfold mbind, M_bind. cbn.
  erewrite send_open; cbn; eauto.
Qed.



(* ===================================================================== *)
(** * Malformed frames *)
(* ===================================================================== *)

Lemma emit_state event data s :
  emit event data s
  = Ok tt (fold_left
             (fun st listener =>
                state_of (try_catch (invoke (4 + spare) event listener data)
                                    (console_error event) st))
             (registered event s)
             (set_emitted (emitted s ++ [(event, data)]) s)).
Proof.
  unfold emit, emit_with, registered. simpl.
  destruct (listeners s !! event); reflexivity.
Qed.

Lemma dispatch_preserves (R : relation OBSWebSocket) `{!PreOrder R}
    (call : Listener -> JS -> M unit) event data set st :
  (forall l, l ∈ set -> preserves R (call l data)) ->
  (forall e, preserves R (console_error event e)) ->
  R st (fold_left
          (fun st listener =>
             state_of (try_catch (call listener data) (console_error event) st))
          set st).
Proof.
  intros Hcall Hcon. revert st.
  induction set as [|l set IH]; intros st; simpl; [reflexivity|].
  etransitivity.
  - apply (preserves_try_catch R (call l data) (console_error event)).
    + apply Hcall. left.
    + apply Hcon.
  - apply IH. intros l' Hl'. apply Hcall. right. exact Hl'.
Qed.

Lemma invoke_plain_keeps depth event l data :
  plain l ->
  preserves (keeps (fun s => (session s, emitted s))) (invoke depth event l data).
Proof.
  intros Hl. destruct depth as [|d]; simpl; [pres|].
  destruct l as [id|w ev inner| | |]; simpl in Hl; try contradiction.
  - intros s. unfold keeps. simpl. destruct (userListener _ _ _); reflexivity.
  - apply preserves_bind; tc; [unfold off; frame|intros _].
    destruct inner; simpl in Hl; try contradiction; destruct d as [|d]; simpl; pres.
    + intros s. unfold keeps. simpl. destruct (userListener _ _ _); reflexivity.
    + unfold rejectConnect. frame.
Qed.

Lemma names_ok_error_plain s l :
  names_ok s -> l ∈ registered "obs:error" s -> plain l.
Proof.
  intros Hok Hl. unfold registered in Hl.
  destruct (listeners s !! "obs:error") as [set|] eqn:E; simpl in Hl;
    [|inversion Hl].
  specialize (Hok _ _ _ E Hl). destruct l as [|w ev inner| | |]; simpl in *; auto.
  destruct Hok as [_ Hin]. destruct inner; simpl; auto; discriminate.
Qed.

Lemma emit_error_session data s :
  names_ok s ->
  let s' := state_of (emit "obs:error" data s) in
  session s' = session s /\ emitted s' = emitted s ++ [("obs:error", data)].
Proof.
  intros Hok. rewrite emit_state. cbn [state_of].
  generalize (4 + spare). intros depth.
  assert (H : keeps (fun s => (session s, emitted s))
            (set_emitted (emitted s ++ [("obs:error", data)]) s)
            (fold_left
               (fun st listener =>
                  state_of (try_catch (invoke depth "obs:error" listener data)
                                      (console_error "obs:error") st))
               (registered "obs:error" s)
               (set_emitted (emitted s ++ [("obs:error", data)]) s))).
  { apply dispatch_preserves; tc.
    - intros l Hl. apply invoke_plain_keeps. eapply names_ok_error_plain; eauto.
    - intros e. unfold console_error. frame. }
  unfold keeps in H. apply pair_equal_spec in H. exact H.
Qed.

Lemma handleMessage_invalid reason s :
  handleMessage (InvalidJSON reason) s
  = emit "obs:error" (JErr (SyntaxError reason))
      (with_log LError "Failed to parse message:" [JErr (SyntaxError reason)] s).
Proof. unfold handleMessage, log. run_cbn. reflexivity. Qed.

Lemma names_ok_with_log level message args s :
  names_ok s -> names_ok (with_log level message args s).
Proof.
  intros H ev set l. rewrite (log_same listeners) by reflexivity. apply H.
Qed.


(* ===================================================================== *)
(** * The reconnect timer *)
(* ===================================================================== *)







(** The timer fires: the signal is emitted and the delay doubles, up to
    the cap. *)
Lemma timer_fired t delay s :
  timers s !! t = Some (delay, Armed) ->
  let s' := step (TimerFired t) s in
  timers s' = <[t := (delay, Fired)]> (timers s)
  /\ reconnectDelay s' = Z.min (reconnectDelay s * 2) maxReconnectDelay
  /\ shouldReconnect s' = shouldReconnect s
  /\ reconnectTimer s' = None.
Proof.
  intros Ht. unfold step, exec, reconnect_callback. run_cbn. rewrite Ht. cbn.
  match goal with |- context [emit ?e ?d ?st] =>
    pose proof (emit_core e d st) as Hcore;
    destruct (emit_ok e d st) as (s1 & E); rewrite E; cbn in Hcore |- *;
    rewrite E in Hcore; cbn in Hcore
  end.
  unfold core in Hcore. injection Hcore as ? ? ? ? ? ? ? ? ? ? ?.
  match goal with |- context [emit ?e ?d ?st] =>
    pose proof (emit_core e d st) as Hcore;
    destruct (emit_ok e d st) as (s2 & E2); rewrite E2; cbn in Hcore |- *;
    rewrite E2 in Hcore; cbn in Hcore
  end.
  unfold core in Hcore. injection Hcore as ? ? ? ? ? ? ? ? ? ? ?.
  repeat split; congruence.
Qed.







(** ** After a deliberate disconnect *)










(** ** A batch call that is sent *)

Lemma bind_run {A B} (m : M A) (f : A -> M B) s :
  (m ≫= f) s = match m s with
               | Ok a s' => f a s'
               | Throw e s' => Throw e s'
               end.
Proof. reflexivity. Qed.

Lemma next_request_id_run s :
  next_request_id s
  = Ok (generateRequestId (nextRequestId s)) (set_nextRequestId (S (nextRequestId s)) s).
Proof. reflexivity. Qed.




(* ===================================================================== *)
(** * The claims *)
(* ===================================================================== *)

Lemma settle_in_flight outcome p (s : OBSWebSocket) id :
  in_flight s id p ->
  let s' := set_futures (settle outcome p (futures s))
              (set_pendingRequests (delete id (pendingRequests s)) s) in
  futures s' !! p = Some outcome
  /\ pendingRequests s' !! id = None
  /\ (forall q, q <> p -> futures s' !! q = futures s !! q)
  /\ (forall other, other <> id -> pendingRequests s' !! other = pendingRequests s !! other).
Proof.
  intros [Hp Hf]. cbn. repeat split.
  - by apply settle_lookup_eq.
  - by rewrite lookup_delete_eq.
  - intros q Hq. by apply settle_lookup_ne.
  - intros other Hne. by rewrite lookup_delete_ne.
Qed.

Lemma request_error_comment status requestType c :
  comment status = Some c -> truthy_string c = true ->
  request_error status requestType = JErr (OBSRequestError (code status) c requestType).
Proof. intros Hc Ht. unfold request_error. rewrite Hc. cbn. by rewrite Ht. Qed.


(** C1.  The authentication solver [generateAuth] is the two-stage hash
    base64(SHA256(base64(SHA256(password ++ salt)) ++ challenge)), a function
    of its three arguments alone.  When a Hello carries a challenge and a
    salt and a password was supplied to [connect], the Hello handler
    suspends at the digest, and when the digest is done the Identify frame
    handed to the socket carries that value in its [authentication] field.
    For the literals of the specification the value is the one the
    reference algorithm gives. *)
Theorem C1_identify_authentication :
  (forall password salt challenge,
     generateAuth password salt challenge = reference_response password salt challenge)
  /\ (forall s h a password p,
        authentication h = Some a -> truthy_string password = true ->
        helloHandler (Some password) p (js_of_hello h) s
        = Ok tt (set_awaiting (awaiting s ++ [Some (hello_task s h a password p)]) s)
        /\ forall s' i sock,
             ws s' = Some i -> sockets s' !! i = Some sock -> readyState sock = OPEN ->
             sockets (state_of (identify_resume (hello_task s h a password p) s'))
             = <[i := push_sent (expected_identify s h a password) sock]> (sockets s'))
  /\ generateAuth "testpassword" "lM1GncleQOaCu9lT1yeUZhFYnqhsLLP1G5lAGo3ixaI="
                  "+IxH4CnCiqpX1rM9scsNynZzbOe4KhDeYcTNS3PDaeY="
     = "6Ih6ZE7fNq2xx1H/86u/cPeVIV79qvAdxBHNoBg2SnE=".
Proof.
  split; [exact generateAuth_reference|]. split.
  - intros s h a password p Ha Hp. split.
    + by apply helloHandler_password.
    + intros s' i sock Hws Hsock Hopen.
      unfold identify_resume, expected_identify, hello_task. cbn [task_message
        task_password task_salt task_challenge task_promise identify_rpcVersion
        identify_eventSubscriptions toString].
      rewrite (identify_finish_sockets _ _ _ _ _ Hws Hsock Hopen).
      by rewrite generateAuth_reference.
  - vm_compute. reflexivity.
Qed.







(** C3.  A RequestResponse whose id is that of a pending [call] settles
    that call's promise and removes its entry: fulfilled with the
    [responseData] ([undefined] when absent) on [result: true], rejected
    with a failure carrying the response's code, comment and request
    type on [result: false]; no other promise and no other entry is
    touched.  For calls issued one after the other on an open session
    with pairwise distinct generated ids, followed by any series of
    responses, the promise of each call holds the outcome of the first
    response with the call's own id, and is pending if there is none. *)
Theorem C3_request_correlation :
  (forall m s p,
     in_flight s (response_requestId m) p ->
     let s' := state_of (handleRequestResponse m s) in
     futures s' !! p = Some (response_outcome m)
     /\ pendingRequests s' !! response_requestId m = None
     /\ (forall q, q <> p -> futures s' !! q = futures s !! q)
     /\ (forall other, other <> response_requestId m ->
           pendingRequests s' !! other = pendingRequests s !! other))
  /\ (forall m, result (requestStatus m) = true ->
        response_outcome m = Fulfilled (or_undefined (responseData m)))
  /\ (forall m c, result (requestStatus m) = false ->
        comment (requestStatus m) = Some c -> truthy_string c = true ->
        response_outcome m
        = Rejected (JErr (OBSRequestError (code (requestStatus m)) c
                            (response_requestType m))))
  /\ (forall s i sock cs rs k,
        pending_bounded s -> connected s = true ->
        ws s = Some i -> sockets s !! i = Some sock -> readyState sock = OPEN ->
        NoDup (generateRequestId <$> seq (nextRequestId s) (length cs)) ->
        k < length cs ->
        futures (run (respond i rs) (run (issue cs) s)) !! (length (futures s) + k)
        = Some match first_response (generateRequestId (nextRequestId s + k)) rs with
               | Some r => response_outcome r
               | None => Pending
               end).
Proof.
  split; [|split; [|split]].
  - intros m s p Hin. cbn zeta.
    rewrite (handleRequestResponse_pending m s p (proj1 Hin)).
    exact (settle_in_flight (response_outcome m) p s _ Hin).
  - intros m Hr. unfold response_outcome. by rewrite Hr.
  - intros m c Hr Hc Ht. unfold response_outcome. rewrite Hr.
    by rewrite (request_error_comment _ _ c).
  - intros s i sock cs rs k Hb Hc Hws Hsock Hopen Hnd Hk.
    destruct (issue_correlated s i sock Hb Hc Hws Hsock Hopen cs Hnd) as (Hcor & _).
    pose proof (respond_correlated s i (length cs) rs Hnd _ Hcor) as Hall.
    pose proof (cor_own _ _ _ _ _ Hall k Hk) as Hown.
    destruct (first_response _ rs); tauto.
Qed.

Lemma reachable_run inputs : forall s, reachable s -> reachable (run inputs s).
Proof.
  induction inputs as [|i inputs IH]; intros s Hs; [exact Hs|].
  apply IH. by constructor.
Qed.



(** C9.  A frame whose data is not valid JSON makes [handleMessage]
    return normally: the SyntaxError is caught, logged, and emitted as
    [obs:error] to the callers' listeners of that name.  The socket
    reference, [connected], the negotiated version, the pending map, the
    promises of requests and batches, the sockets and the reconnect state
    are as before.  (The promise of a [connect] whose handshake is still
    under way is not among them: its [obs:error] handler rejects it.) *)
Theorem C9_malformed_frame reason s :
  names_ok s ->
  let error := JErr (SyntaxError reason) in
  let s' := state_of (handleMessage (InvalidJSON reason) s) in
  handleMessage (InvalidJSON reason) s = Ok tt s'
  /\ emitted s' = emitted s ++ [("obs:error", error)]
  /\ ws s' = ws s
  /\ connected s' = connected s
  /\ rpcVersion s' = rpcVersion s
  /\ pendingRequests s' = pendingRequests s
  /\ futures s' = futures s
  /\ sockets s' = sockets s
  /\ reconnect_fields s' = reconnect_fields s
  /\ exists new,
       deliveries_of "obs:error" s' = deliveries_of "obs:error" s ++ new
       /\ delivery_call <$> new
          = (fun id => ("obs:error", id, error)) <$> user_ids "obs:error" s.
Proof.
  intros Hok. cbn zeta. rewrite handleMessage_invalid.
  set (s1 := with_log LError "Failed to parse message:" [JErr (SyntaxError reason)] s).
  assert (Hok1 : names_ok s1) by by apply names_ok_with_log.
  destruct (emit_error_session (JErr (SyntaxError reason)) s1 Hok1) as [Hs He].
  destruct (emit_deliveries "obs:error" (JErr (SyntaxError reason)) s1 Hok1)
    as (new & extra & Hd & _ & Hcalls & _).
  destruct (emit_ok "obs:error" (JErr (SyntaxError reason)) s1) as [s' E].
  rewrite E in *. cbn [state_of] in *.
  unfold session, core in Hs.
  injection Hs as ? ? ? ? ? ? ? ? ? ? ? ? ? ? ?.
  assert (Hsame : forall {T} (f : OBSWebSocket -> T),
             (forall v s, f (set_logged v s) = f s) -> f s1 = f s).
  { intros T f Hf. unfold s1. by apply log_same. }
  split; [done|].
  split; [by rewrite He, (Hsame _ emitted)|].
  split; [by rewrite <- (Hsame _ ws)|].
  split; [unfold connected; rewrite <- (Hsame _ isConnected), <- (Hsame _ isIdentified) by done;
          congruence|].
  split; [by rewrite <- (Hsame _ rpcVersion)|].
  split; [by rewrite <- (Hsame _ pendingRequests)|].
  split; [by rewrite <- (Hsame _ futures)|].
  split; [by rewrite <- (Hsame _ sockets)|].
  split; [rewrite <- (Hsame _ reconnect_fields) by done; unfold reconnect_fields; congruence|].
  exists new. split.
  - rewrite Hd. f_equal. unfold deliveries_of. by rewrite (Hsame _ delivered).
  - rewrite Hcalls. unfold user_ids, registered. by rewrite (Hsame _ listeners).
Qed.



Lemma call_not_sent requestType requestData s :
  connected s = true -> ~ socket_open s ->
  call requestType requestData s
  = Ok (length (futures s))
       (set_futures
          (futures s ++ [Rejected not_connected])
          (set_pendingRequests
             (<[generateRequestId (nextRequestId s) := length (futures s)]>
                (pendingRequests s))
             (set_nextRequestId (S (nextRequestId s)) s))).
Proof.
  intros Hc Hclosed. unfold call, next_request_id.
  unfold gets, modify, mret, M_ret. unfold mbind, M_bind. simpl.
  rewrite Hc. simpl.
  rewrite pending_request_not_sent; [reflexivity|].
  intros (i & sock & H1 & H2 & H3). apply Hclosed. by exists i, sock.
Qed.

(** C8, the part that holds and the part that does not.  A response or
    batch response whose id has no entry is logged as a warning and
    changes neither the pending map nor any promise.  A matched response
    removes the entry as it settles the promise.  But [call] on a session
    that is [connected] while its socket is not open records the entry,
    [send] throws, the promise is rejected with 'WebSocket is not
    connected', and the entry stays in the map: it is left dangling, and
    the sweep of a later teardown rejects its promise a second time. *)
Theorem C8_dangling_entry :
  (forall m s,
     pendingRequests s !! response_requestId m = None ->
     handleRequestResponse m s
     = Ok tt (with_log LWarn "Received response for unknown request:"
                [JStr (response_requestId m)] s))
  /\ (forall m s,
        pendingRequests s !! batchResponse_requestId m = None ->
        handleBatchResponse m s
        = Ok tt (with_log LWarn "Received batch response for unknown request:"
                   [JStr (batchResponse_requestId m)] s))
  /\ (forall level message args s,
        pendingRequests (with_log level message args s) = pendingRequests s
        /\ futures (with_log level message args s) = futures s)
  /\ (forall requestType requestData s,
        connected s = true -> ~ socket_open s ->
        let s' := state_of (call requestType requestData s) in
        let requestId := generateRequestId (nextRequestId s) in
        let p := length (futures s) in
        futures s' !! p = Some (Rejected not_connected)
        /\ pendingRequests s' !! requestId = Some p
        /\ p ∈ (map_to_list (pendingRequests s')).*2).
Proof.
  split; [|split; [|split]].
  - intros m s H. by rewrite handleRequestResponse_unknown.
  - intros m s H. by rewrite handleBatchResponse_unknown.
  - intros level message args s. split; by apply log_same.
  - intros requestType requestData s Hc Hclosed. cbn zeta.
    rewrite (call_not_sent _ _ _ Hc Hclosed). cbn.
    rewrite lookup_insert_eq.
    split; [|split; [done|]].
    + by rewrite lookup_app_r, Nat.sub_diag by lia.
    + apply list_elem_of_fmap.
      exists (generateRequestId (nextRequestId s), length (futures s)).
      split; [done|]. apply elem_of_map_to_list. by rewrite lookup_insert_eq.
Qed.


(* ===================================================================== *)
(** * Further properties of the code *)
(* ===================================================================== *)

(** ** The listener registry *)

Lemma registered_on event l s :
  registered event (state_of (on event l s))
  = if bool_decide (l ∈ registered event s)
    then registered event s else registered event s ++ [l].
Proof. unfold on, registered. cbn. by rewrite lookup_insert_eq. Qed.

Lemma registered_on_ne event other l s :
  other <> event ->
  registered other (state_of (on event l s)) = registered other s.
Proof. intros H. unfold on, registered. cbn. by rewrite lookup_insert_ne. Qed.

Lemma registered_off event l s :
  registered event (state_of (off event l s))
  = filter (fun x => x ≠ l) (registered event s).
Proof.
  unfold off, registered. cbn.
  destruct (listeners s !! event) as [set|] eqn:E; cbn; [|by rewrite E].
  destruct (decide _) as [H|H]; cbn.
  - rewrite lookup_delete_eq. cbn. symmetry. by apply length_zero_iff_nil.
  - by rewrite lookup_insert_eq.
Qed.


Lemma filter_ne_absent (l : Listener) (set : list Listener) :
  l ∉ set -> filter (fun x => x ≠ l) set = set.
Proof.
  intros H. induction set as [|x set IH]; [done|].
  rewrite not_elem_of_cons in H. destruct H as [Hx Hset].
  rewrite filter_cons_True by congruence. by rewrite IH.
Qed.

Lemma set_listeners_same s : set_listeners (listeners s) s = s.
Proof. by destruct s. Qed.

(** X1.  [on] gives the set semantics of the source: a listener that is
    already registered under the name is not added again, so registering
    it twice is the same as registering it once; a new one goes after
    the earlier ones; the listeners of other names are not touched. *)
Theorem on_set_semantics event l s :
  state_of (on event l (state_of (on event l s))) = state_of (on event l s)
  /\ (l ∈ registered event s ->
        registered event (state_of (on event l s)) = registered event s)
  /\ (l ∉ registered event s ->
        registered event (state_of (on event l s)) = registered event s ++ [l])
  /\ (forall other, other <> event ->
        registered other (state_of (on event l s)) = registered other s).
Proof.
  split; [|split; [|split]].
  - unfold on. cbn. rewrite lookup_insert_eq. cbn.
    rewrite insert_insert_eq.
    destruct (bool_decide (l ∈ default [] (listeners s !! event))) eqn:E; cbn.
    + by rewrite E.
    + rewrite bool_decide_true; [done|]. apply elem_of_app. right. by left.
  - intros H. rewrite registered_on. by rewrite bool_decide_true.
  - intros H. rewrite registered_on. by rewrite bool_decide_false.
  - intros other H. by apply registered_on_ne.
Qed.



(** ** Properties of the registry that every step keeps *)

Section Registry.

Variable P : OBSWebSocket -> Prop.

Hypothesis P_listeners : forall s s', listeners s' = listeners s -> P s -> P s'.
Hypothesis P_on : forall event l, preserves (maintains P) (on event l).
Hypothesis P_off : forall event l, preserves (maintains P) (off event l).
Hypothesis P_removeAllListeners :
  forall event, preserves (maintains P) (removeAllListeners event).

Ltac same_listeners :=
  solve [ unfold maintains; intros; eapply P_listeners; [|eassumption];
          simpl; repeat case_match; reflexivity ].

Ltac registry_leaf :=
  first [ apply P_on | apply P_off | apply P_removeAllListeners
        | apply log_maintains; intros; eapply P_listeners; [|eassumption]; reflexivity
        | apply getProp_preserves; tc
        | same_listeners ].

Lemma once_registry event inner : preserves (maintains P) (once event inner).
Proof. unfold once. pres_with registry_leaf. Qed.

Lemma send_registry message : preserves (maintains P) (send message).
Proof. unfold send. pres_with registry_leaf. Qed.

Lemma identify_finish_registry message p :
  preserves (maintains P) (identify_finish message p).
Proof.
  unfold identify_finish, rejectConnect.
  pres_with ltac:(first [ apply once_registry | apply send_registry | registry_leaf ]).
Qed.

Lemma helloHandler_registry password p hello :
  preserves (maintains P) (helloHandler password p hello).
Proof.
  unfold helloHandler, identify, rejectConnect.
  pres_with ltac:(first [ apply identify_finish_registry | registry_leaf ]).
Qed.

Lemma console_error_registry event e : preserves (maintains P) (console_error event e).
Proof. unfold console_error. pres_with registry_leaf. Qed.

Lemma invoke_registry depth : forall event l data,
  preserves (maintains P) (invoke depth event l data).
Proof.
  induction depth as [|d IH]; intros event l data; simpl; [pres|].
  destruct l; simpl.
  - intros s. destruct (userListener _ _ _); simpl; intros Hs;
      (eapply P_listeners; [|exact Hs]); reflexivity.
  - apply preserves_bind; tc; [apply P_off | intros _; apply IH].
  - apply helloHandler_registry.
  - unfold resolveConnect.
    pres_with registry_leaf.
    + intros s. apply preserves_emit_with; tc.
      * intros Hs. (eapply P_listeners; [|exact Hs]); reflexivity.
      * intros l _. apply IH.
      * intros e. apply console_error_registry.
    + intros s. apply preserves_emit_with; tc.
      * intros Hs. (eapply P_listeners; [|exact Hs]); reflexivity.
      * intros l _. apply IH.
      * intros e. apply console_error_registry.
  - unfold rejectConnect. pres_with registry_leaf.
Qed.

Lemma emit_registry event data : preserves (maintains P) (emit event data).
Proof.
  intros s. unfold emit. apply preserves_emit_with; tc.
  - intros Hs. (eapply P_listeners; [|exact Hs]); reflexivity.
  - intros l _. apply invoke_registry.
  - intros e. apply console_error_registry.
Qed.

Lemma exec_registry i : preserves (maintains P) (exec i).
Proof.
  destruct i; op_unfold; unfold pending_request, rejectAllPending, rejectFuture;
    pres_with ltac:(first [ apply emit_registry | apply once_registry
                          | apply send_registry | apply identify_finish_registry
                          | registry_leaf ]).
Qed.

Lemma reachable_registry s :
  (forall opts, P (new_OBSWebSocket opts)) -> reachable s -> P s.
Proof.
  intros Hnew. induction 1 as [opts|s i _ IH]; [apply Hnew|].
  by apply exec_registry.
Qed.

End Registry.

Lemma on_sets_nonempty event l : preserves (maintains sets_nonempty) (on event l).
Proof.
  unfold on. apply preserves_modify. intros s Hs ev. cbn.
  destruct (decide (ev = event)) as [->|Hne].
  - rewrite lookup_insert_eq. intros [= H].
    case_bool_decide as Hin.
    + rewrite H in Hin. inversion Hin.
    + by destruct (default [] (listeners s !! event)).
  - rewrite lookup_insert_ne by congruence. apply Hs.
Qed.

Lemma off_sets_nonempty event l : preserves (maintains sets_nonempty) (off event l).
Proof.
  unfold off. apply preserves_modify. intros s Hs.
  destruct (listeners s !! event) as [set|] eqn:E; [|exact Hs].
  case_decide as H0; intros ev; cbn.
  - intros Hlk. apply lookup_delete_Some in Hlk as [_ Hlk]. by apply (Hs ev).
  - destruct (decide (ev = event)) as [->|Hne].
    + rewrite lookup_insert_eq. intros [= H]. by rewrite H in H0.
    + rewrite lookup_insert_ne by congruence. apply Hs.
Qed.

Lemma removeAllListeners_sets_nonempty event :
  preserves (maintains sets_nonempty) (removeAllListeners event).
Proof.
  unfold removeAllListeners. apply preserves_modify. intros s Hs.
  destruct (truthy_opt event); intros ev; cbn.
  - intros Hlk. apply lookup_delete_Some in Hlk as [_ Hlk]. by apply (Hs ev).
  - by rewrite lookup_empty.
Qed.

Lemma reachable_sets_nonempty s : reachable s -> sets_nonempty s.
Proof.
  apply (reachable_registry sets_nonempty).
  - intros s1 s2 H Hs ev. rewrite H. apply Hs.
  - apply on_sets_nonempty.
  - apply off_sets_nonempty.
  - apply removeAllListeners_sets_nonempty.
  - intros opts ev. cbn. by rewrite lookup_empty.
Qed.

(** X2.  [off] undoes [on]: in every state a run can reach, removing a
    listener that was newly registered gives back the registry as it
    was, the name itself being deleted with its last listener; and
    removing a listener that is not registered changes nothing. *)
Theorem off_undoes_on event l s :
  reachable s -> l ∉ registered event s ->
  listeners (state_of (off event l (state_of (on event l s)))) = listeners s
  /\ state_of (off event l s) = s.
Proof.
  intros Hr Hl. pose proof (reachable_sets_nonempty s Hr) as Hne. split.
  - unfold off, on. cbn. rewrite lookup_insert_eq. cbn.
    unfold registered in Hl.
    rewrite bool_decide_false by done.
    rewrite filter_app, filter_ne_absent by done.
    rewrite filter_cons_False, filter_nil, app_nil_r by (intros H; by apply H).
    destruct (listeners s !! event) as [set|] eqn:E; cbn in *.
    + destruct (decide (length set = 0)) as [H0|H0].
      * apply length_zero_iff_nil in H0. subst. by destruct (Hne event).
      * cbn. rewrite insert_insert_eq. by apply insert_id.
    + cbn. rewrite delete_insert_eq. by apply delete_id.
  - unfold off. cbn. unfold registered in Hl.
    destruct (listeners s !! event) as [set|] eqn:E; cbn in *; [|done].
    rewrite filter_ne_absent by done.
    destruct (decide (length set = 0)) as [H0|H0].
    + apply length_zero_iff_nil in H0. subst. by destruct (Hne event).
    + rewrite insert_id by done. apply set_listeners_same.
Qed.






Lemma once_run event l s :
  once event l s
  = on event (OnceWrapper (nextWrapper s) event l)
       (set_nextWrapper (S (nextWrapper s)) s).
Proof. reflexivity. Qed.

(** X4.  [off] with the function that was given to [once] does not remove
    it: the set holds the wrapper, not the function, so the listener is
    still among those the next [emit] calls. *)
Theorem off_misses_once event id s :
  let s' := state_of (off event (UserListener id)
                        (state_of (once event (UserListener id) s))) in
  OnceWrapper (nextWrapper s) event (UserListener id) ∈ registered event s'
  /\ id ∈ user_ids event s'.
Proof.
  cbn zeta.
  assert (H : OnceWrapper (nextWrapper s) event (UserListener id)
              ∈ registered event
                  (state_of (off event (UserListener id)
                     (state_of (once event (UserListener id) s))))).
  { rewrite registered_off. apply list_elem_of_filter. split; [done|].
    rewrite once_run, registered_on. case_bool_decide; [done|].
    apply elem_of_app. right. by left. }
  split; [exact H|].
  unfold user_ids. apply list_elem_of_omap.
  eexists. split; [exact H|]. reflexivity.
Qed.

(** X5.  [removeAllListeners] with a non-empty name removes the listeners
    of that name and no others; with no name, or with the empty string
    (which is falsy), it removes the listeners of every name, and an
    [emit] that follows calls no one. *)
Theorem removeAllListeners_scope :
  (forall event s, truthy_string event = true ->
     let s' := state_of (removeAllListeners (Some event) s) in
     registered event s' = []
     /\ forall other, other <> event -> registered other s' = registered other s)
  /\ (forall event name data s, truthy_opt event = false ->
        let s' := state_of (removeAllListeners event s) in
        listeners s' = ∅
        /\ delivered (state_of (emit name data s')) = delivered s).
Proof.
  split.
  - intros event s Ht. cbn zeta. unfold removeAllListeners, registered. cbn.
    rewrite Ht. cbn. rewrite lookup_delete_eq. split; [done|].
    intros other Hne. by rewrite lookup_delete_ne.
  - intros event name data s Ht. cbn zeta. unfold removeAllListeners. cbn.
    rewrite Ht. cbn. split; [done|].
    rewrite emit_state. unfold registered. cbn. by rewrite lookup_empty.
Qed.

Lemma with_log_eq level message args s :
  with_log level message args s
  = set_logged (logged s ++ if logger (options s) level
                            then [(level, message, args)] else []) s.
Proof.
  unfold with_log. destruct (logger (options s) level); [reflexivity|].
  rewrite app_nil_r. by destruct s.
Qed.

(** ** Requests *)

Lemma member_ids_explicit (reqs : list (string * option JS)) : forall s,
  mapM (fun req =>
          memberId ← next_request_id;
          mret {| member_requestType := req.1;
                  member_requestId := Some memberId;
                  member_requestData := req.2 |}) reqs s
  = Ok (batch_members (nextRequestId s) reqs)
       (set_nextRequestId (nextRequestId s + length reqs) s).
Proof.
  induction reqs as [|req reqs IH]; intros s.
  - cbn. rewrite Nat.add_0_r. f_equal. by destruct s.
  - cbn [mapM]. rewrite bind_run, bind_run, next_request_id_run. cbn beta iota.
    rewrite mret_run, bind_run, IH. cbn.
    unfold batch_members. cbn. rewrite Nat.add_0_r.
    rewrite Nat.add_succ_r. f_equal. f_equal.
    apply imap_ext. intros j x _. cbn. by rewrite Nat.add_succ_r.
Qed.


(** X7.  [call] on a connected client whose socket is open hands the
    socket exactly one frame, a Request with the type and data given and
    the id generated for it, records the promise under that id, uses up
    one id, and returns the promise pending; frames sent before and the
    other sockets are as they were. *)
Theorem call_sends_request requestType requestData s i sock :
  connected s = true ->
  ws s = Some i -> sockets s !! i = Some sock -> readyState sock = OPEN ->
  let requestId := generateRequestId (nextRequestId s) in
  let s' := state_of (call requestType requestData s) in
  sockets s'
  = <[i := push_sent (Request {| request_requestType := requestType;
                                 request_requestId := requestId;
                                 request_requestData := requestData |}) sock]>
      (sockets s)
  /\ pendingRequests s' = <[requestId := length (futures s)]> (pendingRequests s)
  /\ futures s' = futures s ++ [Pending]
  /\ nextRequestId s' = S (nextRequestId s).
Proof.
  intros Hc Hws Hsock Hopen. cbn zeta.
  rewrite (call_sent requestType requestData s i sock Hc Hws Hsock Hopen).
  cbn. by rewrite !log_same by reflexivity.
Qed.

(** X8.  [callBatch] on a connected client whose socket is open hands the
    socket exactly one RequestBatch frame: the batch id is the next
    generated id, the members are the requests in the order given, each
    with its type and data and the following ids in turn, and
    [haltOnFailure] and [executionType] are those of the options (absent
    when no options are given).  It uses up one id more than there are
    requests. *)
Theorem callBatch_sends_batch reqs opts s i sock :
  connected s = true ->
  ws s = Some i -> sockets s !! i = Some sock -> readyState sock = OPEN ->
  let n := nextRequestId s in
  let s' := state_of (callBatch reqs opts s) in
  sockets s'
  = <[i := push_sent
             (RequestBatch {| batch_requestId := generateRequestId n;
                              haltOnFailure := opts ≫= opt_haltOnFailure;
                              executionType := opts ≫= opt_executionType;
                              requests := batch_members (S n) reqs |}) sock]>
      (sockets s)
  /\ pendingRequests s' = <[generateRequestId n := length (futures s)]> (pendingRequests s)
  /\ futures s' = futures s ++ [Pending]
  /\ nextRequestId s' = S n + length reqs.
Proof.
  intros Hc Hws Hsock Hopen. cbn zeta.
  assert (E : callBatch reqs opts s
    = pending_request (generateRequestId (nextRequestId s))
        (RequestBatch {| batch_requestId := generateRequestId (nextRequestId s);
                         haltOnFailure := opts ≫= opt_haltOnFailure;
                         executionType := opts ≫= opt_executionType;
                         requests := batch_members (S (nextRequestId s)) reqs |})
        (set_nextRequestId (S (nextRequestId s) + length reqs) s)).
  { unfold callBatch. rewrite bind_run. unfold gets at 1. cbn beta iota.
    rewrite Hc. cbn [negb]. cbn iota.
    rewrite bind_run, next_request_id_run. cbn beta iota.
    rewrite bind_run, member_ids_explicit. cbn. reflexivity. }
  rewrite E.
  erewrite pending_request_sent; [|exact Hws|exact Hsock|exact Hopen].
  cbn. by rewrite !log_same by reflexivity.
Qed.


(** ** Connecting *)

Lemma connect_busy url password s i :
  ws s = Some i ->
  connect url password s
  = Ok (length (connects s))
       (set_connects
          (connects s ++ [Rejected (JErr (Error "Already connected or connecting"))]) s).
Proof.
  intros Hws. unfold connect. rewrite bind_run. unfold gets at 1. cbn beta iota.
  rewrite bind_run. unfold gets at 1. cbn beta iota. by rewrite Hws.
Qed.

Lemma connect_free url password s :
  ws s = None ->
  connect url password s
  = Ok (length (connects s))
       (state_of
          (on "obs:Hello"
              (OnceWrapper (nextWrapper s) "obs:Hello"
                 (HelloHandler password (length (connects s))))
              (set_nextWrapper (S (nextWrapper s))
                 (set_ws (Some (length (sockets s)))
                    (set_sockets
                       (sockets s ++ [{| url := url; readyState := CONNECTING;
                                         sent := []; closeCalls := [] |}])
                       (with_log LDebug "Connecting to" [JStr url]
                          (set_connects (connects s ++ [Pending])
                             (set_reconnectDelay 1000
                                (set_shouldReconnect true s))))))))).
Proof.
  intros Hws. unfold connect. rewrite bind_run. unfold gets at 1. cbn beta iota.
  rewrite bind_run. unfold gets at 1. cbn beta iota. rewrite Hws.
  unfold once, log. run_cbn. rewrite !log_same by reflexivity. reflexivity.
Qed.

(** X10.  [connect] on a client that holds no socket creates one for the
    URL, in the CONNECTING state, keeps a reference to it, turns
    reconnection on, puts the reconnect delay back to 1000, registers its
    Hello handler once after the listeners already under that name, and
    returns a pending promise; requests, promises of requests and the
    sockets made before are untouched. *)
Theorem connect_accepts url password s :
  ws s = None ->
  let s' := state_of (connect url password s) in
  connect url password s = Ok (length (connects s)) s'
  /\ sockets s' = sockets s ++ [{| url := url; readyState := CONNECTING;
                                   sent := []; closeCalls := [] |}]
  /\ ws s' = Some (length (sockets s))
  /\ connects s' = connects s ++ [Pending]
  /\ shouldReconnect s' = true
  /\ reconnectDelay s' = 1000%Z
  /\ connected s' = connected s
  /\ pendingRequests s' = pendingRequests s
  /\ futures s' = futures s
  /\ (OnceWrapper (nextWrapper s) "obs:Hello"
        (HelloHandler password (length (connects s))) ∉ registered "obs:Hello" s ->
      registered "obs:Hello" s'
      = registered "obs:Hello" s
        ++ [OnceWrapper (nextWrapper s) "obs:Hello"
              (HelloHandler password (length (connects s)))]).
Proof.
  intros Hws. cbn zeta. rewrite (connect_free url password s Hws).
  cbn [state_of]. split; [done|].
  repeat (split; [unfold on, connected; cbn; (rewrite ?log_same by reflexivity);
                  reflexivity|]).
  intros Hnew. rewrite registered_on. unfold registered in *. cbn.
  rewrite !log_same by reflexivity. by rewrite bool_decide_false.
Qed.

(** X11.  After any [connect] the client holds a socket reference, and
    while it holds one a further [connect] is refused: it returns a
    promise rejected with 'Already connected or connecting' and changes
    nothing else, so no second socket is created. *)
Theorem connect_refuses_second url password s :
  ws (state_of (connect url password s)) <> None
  /\ forall url' password' s1 i,
       ws s1 = Some i ->
       connect url' password' s1
       = Ok (length (connects s1))
            (set_connects
               (connects s1
                ++ [Rejected (JErr (Error "Already connected or connecting"))]) s1).
Proof.
  split.
  - destruct (ws s) as [i|] eqn:Hws.
    + rewrite (connect_busy _ _ _ _ Hws). cbn. by rewrite Hws.
    + rewrite (connect_free _ _ _ Hws). unfold on. cbn.
      rewrite ?log_same by reflexivity. done.
  - intros. by eapply connect_busy.
Qed.

(** X12.  When the Hello carries no authentication, the Identify frame is
    sent at once and carries none, whether or not a password was given to
    [connect]: it has the [rpcVersion] of the Hello and the
    [eventSubscriptions] of the options. *)
Theorem identify_without_authentication h password p s i sock :
  authentication h = None ->
  ws s = Some i -> sockets s !! i = Some sock -> readyState sock = OPEN ->
  let s' := state_of (helloHandler password p (js_of_hello h) s) in
  sockets s'
  = <[i := push_sent
             (Identify {| identify_rpcVersion := JNum (hello_rpcVersion h);
                          identify_authentication := None;
                          identify_eventSubscriptions :=
                            eventSubscriptions (options s) |}) sock]> (sockets s)
  /\ awaiting s' = awaiting s
  /\ connects s' = connects s.
Proof.
  intros Ha Hws Hsock Hopen. cbn zeta.
  rewrite (helloHandler_no_authentication h password p s Ha).
  split; [by apply identify_finish_sockets|].
  unfold identify_finish, once, on. run_cbn.
  rewrite (send_open _ _ i sock); [| by cbn | by cbn | done].
  cbn. rewrite !log_same by reflexivity. done.
Qed.

(** ** Events, closures and the reconnect timer *)

Lemma names_ok_plain s event l :
  names_ok s -> ~ handshake_name event -> l ∈ registered event s -> plain l.
Proof.
  intros Hok Hev Hl. unfold registered in Hl.
  destruct (listeners s !! event) as [set|] eqn:E; simpl in Hl; [|inversion Hl].
  specialize (Hok _ _ _ E Hl). destruct l as [|w ev inner| | |]; simpl in *; auto.
  destruct Hok as [_ Hin]. unfold handshake_name in Hev.
  destruct inner; simpl; auto; tauto.
Qed.

Lemma emit_plain_session event data s :
  names_ok s -> ~ handshake_name event ->
  let s' := state_of (emit event data s) in
  session s' = session s /\ emitted s' = emitted s ++ [(event, data)].
Proof.
  intros Hok Hev. rewrite emit_state. cbn [state_of].
  generalize (4 + spare). intros depth.
  assert (H : keeps (fun s => (session s, emitted s))
            (set_emitted (emitted s ++ [(event, data)]) s)
            (fold_left
               (fun st listener =>
                  state_of (try_catch (invoke depth event listener data)
                                      (console_error event) st))
               (registered event s)
               (set_emitted (emitted s ++ [(event, data)]) s))).
  { apply dispatch_preserves; tc.
    - intros l Hl. apply invoke_plain_keeps. eapply names_ok_plain; eauto.
    - intros e. unfold console_error. frame. }
  unfold keeps in H. apply pair_equal_spec in H. exact H.
Qed.


(** X14.  A socket error event is only reported: [handleError] emits
    [obs:error] with Error('WebSocket error') and returns normally; the
    socket reference, [connected], the pending map, the promises of
    requests, the sockets and the reconnect state are as before. *)
Theorem socket_error_keeps_session s :
  names_ok s ->
  let s' := state_of (handleError s) in
  handleError s = Ok tt s'
  /\ emitted s' = emitted s ++ [("obs:error", JErr (Error "WebSocket error"))]
  /\ ws s' = ws s
  /\ connected s' = connected s
  /\ pendingRequests s' = pendingRequests s
  /\ futures s' = futures s
  /\ sockets s' = sockets s
  /\ reconnect_fields s' = reconnect_fields s.
Proof.
  intros Hok. cbn zeta.
  assert (Hrun : handleError s
                 = emit "obs:error" (JErr (Error "WebSocket error"))
                     (with_log LError "WebSocket error:" [] s)).
  { unfold handleError, log. run_cbn. reflexivity. }
  rewrite Hrun.
  set (s1 := with_log LError "WebSocket error:" [] s).
  assert (Hok1 : names_ok s1) by by apply names_ok_with_log.
  destruct (emit_error_session (JErr (Error "WebSocket error")) s1 Hok1) as [Hs He].
  destruct (emit_ok "obs:error" (JErr (Error "WebSocket error")) s1) as [s' E].
  rewrite E in *. cbn [state_of] in *.
  unfold session, core in Hs.
  injection Hs as ? ? ? ? ? ? ? ? ? ? ? ? ? ? ?.
  assert (Hsame : forall {T} (f : OBSWebSocket -> T),
             (forall v s, f (set_logged v s) = f s) -> f s1 = f s).
  { intros T f Hf. unfold s1. by apply log_same. }
  split; [done|].
  split; [by rewrite He, (Hsame _ emitted)|].
  split; [by rewrite <- (Hsame _ ws)|].
  split; [unfold connected; rewrite <- (Hsame _ isConnected), <- (Hsame _ isIdentified) by done;
          congruence|].
  split; [by rewrite <- (Hsame _ pendingRequests)|].
  split; [by rewrite <- (Hsame _ futures)|].
  split; [by rewrite <- (Hsame _ sockets)|].
  rewrite <- (Hsame _ reconnect_fields) by done. unfold reconnect_fields. congruence.
Qed.

(** X15.  When the reconnect timer fires, 'Reconnecting' and then
    'obs:reconnect' are emitted, the timer reference is dropped and the
    delay is doubled up to the cap; the client opens no socket by itself:
    the socket reference, the sockets and [connected] are as before. *)
Theorem reconnect_signal t delay s :
  names_ok s ->
  timers s !! t = Some (delay, Armed) ->
  let s' := step (TimerFired t) s in
  emitted s' = emitted s ++ [("Reconnecting", JUndefined); ("obs:reconnect", JUndefined)]
  /\ reconnectTimer s' = None
  /\ reconnectDelay s' = Z.min (reconnectDelay s * 2) maxReconnectDelay
  /\ ws s' = ws s
  /\ sockets s' = sockets s
  /\ connected s' = connected s.
Proof.
  intros Hok Ht. cbn zeta.
  destruct (timer_fired t delay s Ht) as (_ & Hd & _ & Hr).
  split; [|split; [exact Hr|split; [exact Hd|]]];
    unfold step, exec, reconnect_callback; run_cbn; rewrite Ht; cbn.
  all: set (s1 := set_reconnectTimer None (set_timers _ s)).
  all: assert (Hok1 : names_ok s1) by (intros ev set0 l; apply Hok).
  all: assert (Hn1 : ~ handshake_name "Reconnecting")
         by (intros [H|H]; discriminate H).
  all: assert (Hn2 : ~ handshake_name "obs:reconnect")
         by (intros [H|H]; discriminate H).
  all: destruct (emit_plain_session "Reconnecting" JUndefined s1 Hok1 Hn1) as [Hs1 He1].
  all: pose proof (emit_names_ok "Reconnecting" JUndefined s1 Hok1) as Hok2.
  all: destruct (emit_ok "Reconnecting" JUndefined s1) as [s2 E2].
  all: rewrite E2 in *; cbn [state_of] in *; cbn.
  all: set (s3 := set_reconnectDelay _ s2).
  all: assert (Hok3 : names_ok s3) by (intros ev set0 l; apply Hok2).
  all: destruct (emit_plain_session "obs:reconnect" JUndefined s3 Hok3 Hn2) as [Hs3 He3].
  all: destruct (emit_ok "obs:reconnect" JUndefined s3) as [s4 E4].
  all: rewrite E4 in *; cbn [state_of] in *.
  all: unfold session, core in Hs1, Hs3.
  all: injection Hs1 as ? ? ? ? ? ? ? ? ? ? ? ? ? ? ?.
  all: injection Hs3 as ? ? ? ? ? ? ? ? ? ? ? ? ? ? ?.
  all: cbn in *.
  - rewrite He3. cbn. rewrite He1. cbn. by rewrite <- app_assoc.
  - repeat split; unfold connected; congruence.
Qed.


(** X17.  In every state a run can reach at most one reconnect timer is
    armed, and it is the one [reconnectTimer] refers to:
    [scheduleReconnect] and [disconnect] clear the timer held before
    another is made or the reference is dropped. *)
Theorem at_most_one_timer_armed s t t' delay delay' :
  reachable s ->
  timers s !! t = Some (delay, Armed) ->
  timers s !! t' = Some (delay', Armed) ->
  t = t' /\ reconnectTimer s = Some t.
Proof.
  intros Hr Ht Ht'. destruct (reachable_wf s Hr) as [_ _ Hok].
  pose proof (Hok _ _ Ht) as H1. pose proof (Hok _ _ Ht') as H2.
  split; [congruence|exact H1].
Qed.

Lemma core_delay_bounded s s' : core s' = core s -> delay_bounded s -> delay_bounded s'.
Proof.
  intros H. unfold core in H. unfold delay_bounded. simplify_eq. congruence.
Qed.

Ltac delay_leaf :=
  first [ apply (keeps_maintains core);
            [ exact core_delay_bounded
            | first [ apply emit_keeps_core | apply send_keeps_core
                    | apply identify_finish_keeps_core ] ]
        | apply log_maintains; intros; assumption
        | apply getProp_preserves; tc
        | solve [ unfold maintains, delay_bounded, maxReconnectDelay;
                  simpl; repeat case_match; simpl; intros; lia ] ].

Lemma exec_delay_bounded i : preserves (maintains delay_bounded) (exec i).
Proof.
  destruct i; op_unfold;
    unfold pending_request, rejectAllPending, rejectFuture, once, on, off,
      removeAllListeners;
    pres_with delay_leaf.
Qed.

(** X18.  In every state a run can reach the reconnect delay lies between
    1000 and 30000: [connect] sets it to 1000 and the timer callback
    doubles it no further than the cap. *)
Theorem reconnect_delay_bounds s :
  reachable s -> (1000 <= reconnectDelay s <= 30000)%Z.
Proof.
  induction 1 as [opts|s i _ IH].
  - cbn. lia.
  - by apply (exec_delay_bounded i s).
Qed.


(** ** Dispatch to callers' listeners only *)

Lemma names_ok_callers s event l :
  names_ok s -> ~ internal_name event -> l ∈ registered event s -> callers event l.
Proof.
  intros Hok Hev Hl. unfold registered in Hl.
  destruct (listeners s !! event) as [set|] eqn:E; simpl in Hl; [|inversion Hl].
  specialize (Hok _ _ _ E Hl). destruct l as [|w ev inner| | |]; simpl in *; auto.
  destruct Hok as [-> Hin]. unfold internal_name in Hev.
  destruct inner; simpl; auto; tauto.
Qed.

Lemma invoke_callers_keeps depth event ev l data :
  callers ev l ->
  preserves (keeps user_fields) (invoke depth event l data).
Proof.
  intros Hl. destruct depth as [|d]; simpl; [pres|].
  destruct l as [id|w ev' inner| | |]; simpl in Hl; try contradiction.
  - intros s. unfold keeps. simpl. destruct (userListener _ _ _); reflexivity.
  - apply preserves_bind; tc.
    + unfold off. pres. unfold keeps, user_fields, session, core. simpl.
      repeat case_match; reflexivity.
    + intros _. destruct inner; simpl in Hl; try contradiction.
      destruct d as [|d]; simpl; pres.
      intros s. unfold keeps. simpl. destruct (userListener _ _ _); reflexivity.
Qed.

Lemma emit_with_callers depth event data s :
  names_ok s -> ~ internal_name event ->
  exists s',
    emit_with (invoke depth event) event data s = Ok tt s'
    /\ session s' = session s
    /\ emitted s' = emitted s ++ [(event, data)]
    /\ connects s' = connects s.
Proof.
  intros Hok Hev.
  assert (E : emit_with (invoke depth event) event data s
    = Ok tt (fold_left
               (fun st listener =>
                  state_of (try_catch (invoke depth event listener data)
                                      (console_error event) st))
               (registered event s)
               (set_emitted (emitted s ++ [(event, data)]) s))).
  { unfold emit_with, registered. simpl. destruct (listeners s !! event); reflexivity. }
  rewrite E. eexists. split; [reflexivity|].
  assert (H : keeps user_fields
            (set_emitted (emitted s ++ [(event, data)]) s)
            (fold_left
               (fun st listener =>
                  state_of (try_catch (invoke depth event listener data)
                                      (console_error event) st))
               (registered event s)
               (set_emitted (emitted s ++ [(event, data)]) s))).
  { apply dispatch_preserves; tc.
    - intros l Hl. eapply invoke_callers_keeps. eapply names_ok_callers; eauto.
    - intros e. unfold console_error. pres.
      unfold keeps, user_fields, session, core. reflexivity. }
  unfold keeps, user_fields in H.
  apply pair_equal_spec in H as [H H3]. apply pair_equal_spec in H as [H1 H2].
  split; [exact H1 | split; [exact H2 | exact H3]].
Qed.

Lemma emit_callers event data s :
  names_ok s -> ~ internal_name event ->
  exists s',
    emit event data s = Ok tt s'
    /\ session s' = session s
    /\ emitted s' = emitted s ++ [(event, data)]
    /\ connects s' = connects s.
Proof. apply emit_with_callers. Qed.




Lemma invoke_once_run depth event w ev inner data st :
  invoke (S depth) event (OnceWrapper w ev inner) data st
  = invoke depth event inner data (state_of (off ev (OnceWrapper w ev inner) st)).
Proof. cbn [invoke]. rewrite bind_run. unfold off, modify. reflexivity. Qed.

Lemma off_same {T} (f : OBSWebSocket -> T) event l s :
  (forall v st, f (set_listeners v st) = f st) ->
  f (state_of (off event l s)) = f s.
Proof.
  intros Hf. unfold off, modify. cbn. repeat case_match; [apply Hf | apply Hf | done].
Qed.


(** X21.  Neither a close event nor [disconnect] settles the promise of a
    [connect]: the rejections [connect] prepares for a socket that closes
    or fails before the handshake is over are never registered, so a
    [connect] whose socket closes first stays pending. *)
Theorem close_leaves_connect_pending s :
  names_ok s ->
  (forall code reason, connects (state_of (handleClose code reason s)) = connects s)
  /\ connects (state_of (disconnect s)) = connects s.
Proof.
  intros Hok.
  assert (Hn : ~ internal_name "ConnectionClosed")
    by (intros [H|[H|H]]; discriminate H).
  split.
  - intros code reason.
    unfold handleClose, rejectAllPending, scheduleReconnect, setTimeout,
      clearTimeout, log. run_cbn.
    match goal with |- context [emit ?e ?d ?st] =>
      assert (Hok1 : names_ok st);
        [ intros ev set0 l; cbn; rewrite (log_same listeners) by reflexivity; apply Hok |];
      destruct (emit_callers e d st Hok1 Hn) as (s1 & E & _ & _ & Hc); rewrite E
    end.
    cbn in Hc. rewrite (log_same connects) in Hc by reflexivity. cbn.
    destruct (shouldReconnect s1 && negb (code =? 1000)%Z); cbn; [|done].
    destruct (reconnectTimer s1) as [timer|]; cbn;
      [destruct (timers s1 !! timer) as [[d []]|]; cbn|];
      by rewrite ?(log_same connects) by reflexivity.
  - unfold disconnect, clearTimeout, ws_close, rejectAllPending. run_cbn.
    destruct (reconnectTimer s) as [timer|]; cbn;
      [destruct (timers s !! timer) as [[delay []]|]; cbn|];
      (destruct (ws s) as [i|]; cbn; [destruct (sockets s !! i); cbn|]);
      match goal with |- context [emit ?e ?d ?st] =>
        assert (Hok1 : names_ok st) by (intros ev set0 l; apply Hok);
        destruct (emit_callers e d st Hok1 Hn) as (s1 & E & _ & _ & Hc); rewrite E
      end; exact Hc.
Qed.

(** One turn of the loop of [emit] under [obs:error], seen from the
    promises of [connect]. *)
Lemma turn_connects depth l data st :
  plain l ->
  connects (state_of (try_catch (invoke (S (S depth)) "obs:error" l data)
                                (console_error "obs:error") st))
  = match l with
    | OnceWrapper _ _ (ErrorHandler q) => settle (Rejected data) q (connects st)
    | _ => connects st
    end.
Proof.
  intros Hl. destruct l as [id|w ev [id| | | |q]| | |]; try contradiction.
  - cbn. unfold try_catch, console_error, modify. cbn.
    destruct (userListener id data (delivered st)); reflexivity.
  - unfold try_catch. rewrite invoke_once_run. cbn [invoke].
    match goal with |- context [state_of (off ?e ?x st)] =>
      pose proof (off_same connects e x st (fun _ _ => eq_refl)) as Hc;
      pose proof (off_same delivered e x st (fun _ _ => eq_refl)) as Hd;
      set (s1 := state_of (off e x st)) in *
    end.
    destruct (userListener id data (delivered s1)); cbn; exact Hc.
  - unfold try_catch. rewrite invoke_once_run. cbn [invoke].
    unfold rejectConnect, modify. cbn [state_of]. cbn [connects set_connects].
    by rewrite (off_same connects) by reflexivity.
Qed.

Lemma settle_stays outcome other p q (ps : list Settled) :
  ps !! p = Some outcome -> outcome <> Pending ->
  settle other q ps !! p = Some outcome.
Proof.
  intros Hp Hne. destruct (decide (q = p)) as [->|Hqp].
  - rewrite settle_settled; [done|]. rewrite Hp. congruence.
  - by rewrite settle_lookup_ne.
Qed.

Lemma dispatch_rejects depth w p data (set : list Listener) :
  Forall plain set ->
  forall st,
    connects st !! p = Some (Rejected data)
    \/ (connects st !! p = Some Pending
        /\ OnceWrapper w "obs:error" (ErrorHandler p) ∈ set) ->
    connects
      (fold_left
         (fun st listener =>
            state_of (try_catch (invoke (S (S depth)) "obs:error" listener data)
                                (console_error "obs:error") st))
         set st) !! p
    = Some (Rejected data).
Proof.
  induction 1 as [|l set Hl _ IH]; intros st Hst; cbn [fold_left].
  - destruct Hst as [H|[_ H]]; [exact H|inversion H].
  - apply IH. rewrite (turn_connects _ _ _ _ Hl).
    destruct Hst as [H|[Hp Hin]].
    + left. destruct l as [|? ? []| | |]; try exact H.
      by apply settle_stays.
    + apply elem_of_cons in Hin as [<-|Hin].
      * left. by apply settle_lookup_eq.
      * destruct l as [|? ? [| | | |q]| | |]; try (right; by split).
        destruct (decide (q = p)) as [->|Hqp].
        -- left. by apply settle_lookup_eq.
        -- right. split; [|done]. by rewrite settle_lookup_ne.
Qed.

(** X22.  While the handshake waits for Identified, a failure reported
    under [obs:error] ends it: a socket error event rejects the promise of
    [connect] with Error('WebSocket error'), and a frame that is not JSON
    rejects it with the SyntaxError. *)
Theorem error_rejects_handshake w p s :
  names_ok s ->
  OnceWrapper w "obs:error" (ErrorHandler p) ∈ registered "obs:error" s ->
  connects s !! p = Some Pending ->
  connects (state_of (handleError s)) !! p
  = Some (Rejected (JErr (Error "WebSocket error")))
  /\ forall reason,
       connects (state_of (handleMessage (InvalidJSON reason) s)) !! p
       = Some (Rejected (JErr (SyntaxError reason))).
Proof.
  intros Hok Hin Hp.
  assert (Hemit : forall data s1,
            listeners s1 = listeners s -> connects s1 = connects s ->
            connects (state_of (emit "obs:error" data s1)) !! p
            = Some (Rejected data)).
  { intros data s1 Hl Hc. rewrite emit_state. cbn [state_of].
    change (4 + spare) with (S (S (2 + spare))).
    assert (Hreg : registered "obs:error" s1 = registered "obs:error" s)
      by (unfold registered; by rewrite Hl).
    rewrite Hreg. apply (dispatch_rejects _ w).
    - apply Forall_forall. intros l Hl'. by apply (names_ok_error_plain s).
    - right. cbn. rewrite Hc. by split. }
  split.
  - assert (Hrun : handleError s
                   = emit "obs:error" (JErr (Error "WebSocket error"))
                       (with_log LError "WebSocket error:" [] s)).
    { unfold handleError, log. run_cbn. reflexivity. }
    rewrite Hrun. apply Hemit; by apply log_same.
  - intros reason. rewrite handleMessage_invalid. apply Hemit; by apply log_same.
Qed.

(** X23.  [disconnect] calls [close(1000, 'Client disconnect')] once, on
    the socket the client holds, and on no other; on a client that holds
    no socket it closes nothing.  In both cases it emits ConnectionClosed
    with code 1000 and reason 'Client disconnect'. *)
Theorem disconnect_closes_socket s :
  names_ok s ->
  let s' := state_of (disconnect s) in
  emitted s'
  = emitted s ++ [("ConnectionClosed",
                   JObj [("code", JNum 1000); ("reason", JStr "Client disconnect")])]
  /\ (forall i sock,
        ws s = Some i -> sockets s !! i = Some sock ->
        sockets s' = <[i := close_called 1000 "Client disconnect" sock]> (sockets s))
  /\ (ws s = None -> sockets s' = sockets s).
Proof.
  intros Hok. cbn zeta.
  assert (Hn : ~ internal_name "ConnectionClosed")
    by (intros [H|[H|H]]; discriminate H).
  unfold disconnect, clearTimeout, ws_close, rejectAllPending. run_cbn.
  destruct (reconnectTimer s) as [timer|]; cbn;
    [destruct (timers s !! timer) as [[delay []]|]; cbn|];
    (destruct (ws s) as [i|] eqn:Ew; cbn;
       [destruct (sockets s !! i) as [k|] eqn:Ek; cbn|]);
    match goal with |- context [emit ?e ?d ?st] =>
      assert (Hok1 : names_ok st) by (intros ev set0 l; apply Hok);
      destruct (emit_callers e d st Hok1 Hn) as (s1 & E & Hs & He & _); rewrite E
    end;
    unfold session in Hs;
    apply pair_equal_spec in Hs as [Hs _]; apply pair_equal_spec in Hs as [Hs _];
    apply pair_equal_spec in Hs as [_ Hsock];
    cbn in *;
    (split; [exact He|]);
    (split; [intros i' sock' Hi Hsk | intros Hnone]);
    try discriminate; simplify_eq; try exact Hsock.
Qed.

(** ** The authentication string *)

Lemma length_be_bytes n x : length (Crypto.be_bytes n x) = n.
Proof. unfold Crypto.be_bytes. by rewrite length_map, length_rev, length_seq. Qed.

Lemma length_compress h block :
  length h = 8 -> length (Crypto.compress h block) = 8.
Proof.
  intros Hh. unfold Crypto.compress. cbn zeta.
  rewrite length_map, length_combine, Hh. reflexivity.
Qed.

Lemma length_sha256 msg : length (Crypto.sha256 msg) = 32.
Proof.
  unfold Crypto.sha256. cbn zeta.
  assert (H : forall bl h, length h = 8 ->
            length (fold_left Crypto.compress bl h) = 8).
  { induction bl as [|b bl IH]; intros h Hh; [exact Hh|].
    cbn [fold_left]. apply IH. by apply length_compress. }
  specialize (H (Crypto.blocks (length (Crypto.be_words (Crypto.pad msg)) / 16)
                   (Crypto.be_words (Crypto.pad msg))) Crypto.H256 eq_refl).
  revert H.
  generalize (fold_left Crypto.compress
                (Crypto.blocks (length (Crypto.be_words (Crypto.pad msg)) / 16)
                   (Crypto.be_words (Crypto.pad msg))) Crypto.H256).
  intros h Hh.
  do 9 (destruct h as [|? h]; try discriminate Hh).
  reflexivity.
Qed.

Lemma length_string_of_list_ascii l :
  String.length (string_of_list_ascii l) = length l.
Proof. induction l as [|c l IH]; [done|]. cbn. by rewrite IH. Qed.

Lemma length_base64_32 bs :
  length bs = 32 -> String.length (Crypto.base64 bs) = 44.
Proof.
  intros Hbs. unfold Crypto.base64. rewrite length_string_of_list_ascii, Hbs.
  do 33 (destruct bs as [|? bs]; try discriminate Hbs).
  reflexivity.
Qed.

(** X24.  For every password, salt and challenge [generateAuth] returns a
    string of 44 characters: the base64 form of a 32-byte digest. *)
Theorem generateAuth_length password salt challenge :
  String.length (generateAuth password salt challenge) = 44.
Proof. unfold generateAuth. cbn zeta. apply length_base64_32, length_sha256. Qed.

(** ** The handshake when it cannot go on *)






(** ** What returns normally *)

Lemma returns_ret {A} (a : A) : returns (mret a : M A).
Proof. intros s. by exists a, s. Qed.

Lemma returns_gets {A} (f : OBSWebSocket -> A) : returns (gets f).
Proof. intros s. by exists (f s), s. Qed.

Lemma returns_modify f : returns (modify f).
Proof. intros s. by exists tt, (f s). Qed.

Lemma returns_bind {A B} (m : M A) (f : A -> M B) :
  returns m -> (forall a, returns (f a)) -> returns (m ≫= f).
Proof.
  intros Hm Hf s. destruct (Hm s) as (a & s1 & E). rewrite bind_run, E. apply Hf.
Qed.

Lemma returns_try_catch {A} (m : M A) (h : JS -> M A) :
  (forall e, returns (h e)) -> returns (try_catch m h).
Proof.
  intros Hh s. unfold try_catch. destruct (m s) as [a s1|e s1]; [by exists a, s1|].
  apply Hh.
Qed.

Lemma returns_mapM {A B} (f : A -> M B) (l : list A) :
  (forall a, returns (f a)) -> returns (mapM f l).
Proof.
  intros Hf. induction l as [|x l IH]; cbn [mapM].
  - apply returns_ret.
  - apply returns_bind; [apply Hf|]. intros y.
    apply returns_bind; [apply IH|]. intros ys. apply returns_ret.
Qed.

Lemma returns_emit event data : returns (emit event data).
Proof. intros s. exists tt. apply emit_ok. Qed.

Ltac returns_step :=
  lazymatch goal with
  | |- forall _, _ => intros ?
  | |- returns (@mbind _ _ _ _ _ _) => apply returns_bind
  | |- returns (@mret _ _ _ _) => apply returns_ret
  | |- returns (gets _) => apply returns_gets
  | |- returns (modify _) => apply returns_modify
  | |- returns (try_catch _ _) => apply returns_try_catch
  | |- returns (emit _ _) => apply returns_emit
  | |- returns (mapM _ _) => apply returns_mapM
  | |- returns (match ?x with _ => _ end) => destruct x
  end.

(** X27.  No event of a socket, no firing of the timer and no completed
    digest makes the client throw, whatever the frame holds and whatever
    the listeners do; and of the public operations only [reidentify]
    throws: [connect], [call] and [callBatch] report failure through the
    promise they return. *)
Theorem only_reidentify_throws :
  (forall event s, exists s', handleMessage event s = Ok tt s')
  /\ (forall code reason s, exists s', handleClose code reason s = Ok tt s')
  /\ (forall s, exists s', handleError s = Ok tt s')
  /\ (forall i s, (forall subs, i <> ApiReidentify subs) ->
        exists s', exec i s = Ok tt s').
Proof.
  assert (Hunit : forall (m : M unit), returns m -> forall s, exists s', m s = Ok tt s').
  { intros m Hm s. destruct (Hm s) as ([] & s' & E). by exists s'. }
  split; [|split; [|split]].
  - intros event. apply Hunit. unfold handleMessage, log. repeat returns_step.
  - intros code reason. apply Hunit.
    unfold handleClose, rejectAllPending, scheduleReconnect, setTimeout,
      clearTimeout, log.
    repeat returns_step.
  - apply Hunit. unfold handleError, log. repeat returns_step.
  - intros i s Hi. revert s. apply Hunit.
    destruct i; try (exfalso; by eapply Hi);
      op_unfold;
      unfold pending_request, rejectAllPending, identify_finish, once, on, off,
        removeAllListeners, log, rejectFuture, rejectConnect;
      repeat returns_step.
Qed.

End Client.

(* ===================================================================== *)
(** * The primitives on known values *)
(* ===================================================================== *)

Example sha256_abc :
  hex (Crypto.sha256 (Crypto.encode "abc"))
  = "ba7816bf8f01cfea414140de5dae2223b00361a396177a9cb410ff61f20015ad"%string.
Proof. vm_compute. reflexivity. Qed.

Example base64_foobar :
  Crypto.base64 (Crypto.encode "foobar") = "Zm9vYmFy"%string
  /\ Crypto.base64 (Crypto.encode "fooba") = "Zm9vYmE="%string
  /\ Crypto.base64 (Crypto.encode "foob") = "Zm9vYg=="%string.
Proof. vm_compute. auto. Qed.

Example generateAuth_literal :
  generateAuth "testpassword" "lM1GncleQOaCu9lT1yeUZhFYnqhsLLP1G5lAGo3ixaI="
               "+IxH4CnCiqpX1rM9scsNynZzbOe4KhDeYcTNS3PDaeY="
  = "6Ih6ZE7fNq2xx1H/86u/cPeVIV79qvAdxBHNoBg2SnE="%string.
Proof. vm_compute. reflexivity. Qed.


(* ===================================================================== *)
(** * The claims on examples *)
(* ===================================================================== *)

Lemma C1_identify_authentication_witness :
  let s := after example_id example_listener 0
             [ApiConnect default_url (Some "testpassword"); SocketOpen 0] in
  let task := hello_task s hello_with_authentication example_authentication
                "testpassword" 0 in
  helloHandler (Some "testpassword") 0 (js_of_hello hello_with_authentication) s
  = Ok tt (set_awaiting (awaiting s ++ [Some task]) s)
  /\ sockets (state_of (identify_resume task s))
     = <[0 := push_sent (expected_identify s hello_with_authentication
                           example_authentication "testpassword") open_socket]>
         (sockets s).
Proof.
  intros s task.
  destruct (proj1 (proj2 C1_identify_authentication) s hello_with_authentication
              example_authentication "testpassword" 0 eq_refl eq_refl) as [H1 H2].
  split; [exact H1|].
  apply H2; vm_compute; reflexivity.
Defined.




Lemma C3_request_correlation_witness :
  futures (run example_id example_listener 0 (respond 0 two_responses)
             (run example_id example_listener 0 (issue two_calls)
                (after example_id example_listener 0 established)))
    !! 0
  = Some (Fulfilled (JObj [("obsVersion", JStr "30.2.2")]))
  /\ futures (run example_id example_listener 0 (respond 0 two_responses)
                (run example_id example_listener 0 (issue two_calls)
                   (after example_id example_listener 0 established)))
       !! 1
     = Some (Rejected (JErr (OBSRequestError 600 "Unknown error" "GetStats"))).
Proof.
  destruct (C3_request_correlation example_id example_listener 0) as (_ & _ & _ & H).
  assert (Hb : pending_bounded (after example_id example_listener 0 established)).
  { apply wf_pending, (reachable_wf example_id example_listener 0).
    apply reachable_run, reachable_new. }
  split.
  - refine (eq_trans (H (after example_id example_listener 0 established)
                        0 _ two_calls two_responses 0 Hb _ _ _ _ _ _) _);
      first [ vm_compute; reflexivity
            | apply (bool_decide_unpack _); vm_compute; exact I
            | vm_compute; lia ].
  - refine (eq_trans (H (after example_id example_listener 0 established)
                        0 _ two_calls two_responses 1 Hb _ _ _ _ _ _) _);
      first [ vm_compute; reflexivity
            | apply (bool_decide_unpack _); vm_compute; exact I
            | vm_compute; lia ].
Defined.





Lemma C8_dangling_entry_witness :
  futures (state_of (call example_id "GetVersion" None
             (after example_id example_listener 0 (established ++ [SocketClosing 0]))))
    !! 0
  = Some (Rejected not_connected)
  /\ pendingRequests (state_of (call example_id "GetVersion" None
        (after example_id example_listener 0 (established ++ [SocketClosing 0]))))
       !! "req-0"
     = Some 0.
Proof.
  destruct (C8_dangling_entry example_id) as (_ & _ & _ & H).
  destruct (H "GetVersion" None
              (after example_id example_listener 0 (established ++ [SocketClosing 0])))
    as (H1 & H2 & _).
  - vm_compute. reflexivity.
  - intros (i & sock & Hws & Hsock & Hopen).
    vm_compute in Hws. injection Hws as <-.
    vm_compute in Hsock. injection Hsock as <-.
    discriminate Hopen.
  - split; [exact H1 | exact H2].
Defined.

Lemma C9_malformed_frame_witness :
  handleMessage example_listener 0 (InvalidJSON "Unexpected token")
    (after example_id example_listener 0 listening)
  = Ok tt (state_of (handleMessage example_listener 0 (InvalidJSON "Unexpected token")
                       (after example_id example_listener 0 listening)))
  /\ connected (state_of (handleMessage example_listener 0
                            (InvalidJSON "Unexpected token")
                            (after example_id example_listener 0 listening)))
     = connected (after example_id example_listener 0 listening)
  /\ pendingRequests (state_of (handleMessage example_listener 0
                                  (InvalidJSON "Unexpected token")
                                  (after example_id example_listener 0 listening)))
     = pendingRequests (after example_id example_listener 0 listening)
  /\ futures (state_of (handleMessage example_listener 0
                          (InvalidJSON "Unexpected token")
                          (after example_id example_listener 0 listening)))
     = futures (after example_id example_listener 0 listening)
  /\ sockets (state_of (handleMessage example_listener 0
                          (InvalidJSON "Unexpected token")
                          (after example_id example_listener 0 listening)))
     = sockets (after example_id example_listener 0 listening).
Proof.
  destruct (C9_malformed_frame example_listener 0 "Unexpected token"
              (after example_id example_listener 0 listening))
    as (H1 & _ & _ & H2 & _ & H3 & H4 & H5 & _).
  - apply wf_names, (reachable_wf example_id example_listener 0).
    apply reachable_run, reachable_new.
  - split; [exact H1|]. split; [exact H2|]. split; [exact H3|].
    split; [exact H4 | exact H5].
Defined.

(** What the runs of the examples give. *)
Lemma examples_run :
  sent <$> sockets (after example_id example_listener 0
                      [ ApiConnect default_url (Some "testpassword"); SocketOpen 0;
                        SocketMessage 0 (ParsedMessage (Hello hello_with_authentication));
                        DigestDone 0 ])
  = [[Identify {| identify_rpcVersion := JNum 1;
                  identify_authentication :=
                    Some "6Ih6ZE7fNq2xx1H/86u/cPeVIV79qvAdxBHNoBg2SnE=";
                  identify_eventSubscriptions := Some 2047%Z |}]]
  /\ connected (after example_id example_listener 0 established) = true
  /\ connects (after example_id example_listener 0
                 [ ApiConnect default_url None; SocketOpen 0;
                   SocketMessage 0 (ParsedMessage (Hello hello_with_authentication)) ])
     = [Rejected auth_required]
  /\ sent <$> sockets (after example_id example_listener 0
                 [ ApiConnect default_url None; SocketOpen 0;
                   SocketMessage 0 (ParsedMessage (Hello hello_with_authentication)) ])
     = [[]]
  /\ futures (after example_id example_listener 0 call_while_closing)
     = [Rejected not_connected]
  /\ pendingRequests (after example_id example_listener 0 call_while_closing) !! "req-0"
     = Some 0
  /\ connected (after example_id example_listener 0 call_while_closing) = true
  /\ delivered (after example_id example_listener 0
                  (with_listeners ++ [ApiEmit "ExitStarted" JUndefined]))
     = [ ("ExitStarted", 0, JUndefined, None);
         ("ExitStarted", 1, JUndefined, Some (JStr "boom"));
         ("ExitStarted", 2, JUndefined, None) ]
  /\ console (after example_id example_listener 0
                (with_listeners ++ [ApiEmit "ExitStarted" JUndefined]))
     = [ ("ExitStarted", JStr "boom") ].
Proof. vm_compute. repeat (split; [reflexivity|]). reflexivity. Qed.

(* ===================================================================== *)
(** * The further properties on examples *)
(* ===================================================================== *)

Lemma on_set_semantics_witness :
  registered "ExitStarted"
    (state_of (on "ExitStarted" (UserListener 0)
                 (after example_id example_listener 0 with_listeners)))
  = registered "ExitStarted" (after example_id example_listener 0 with_listeners)
  /\ registered "ExitStarted"
       (state_of (on "ExitStarted" (UserListener 7)
                    (after example_id example_listener 0 with_listeners)))
     = registered "ExitStarted" (after example_id example_listener 0 with_listeners)
       ++ [UserListener 7].
Proof.
  split.
  - apply (proj1 (proj2 (on_set_semantics "ExitStarted" (UserListener 0)
                           (after example_id example_listener 0 with_listeners)))).
    apply (bool_decide_unpack _). vm_compute. exact I.
  - apply (proj1 (proj2 (proj2 (on_set_semantics "ExitStarted" (UserListener 7)
                           (after example_id example_listener 0 with_listeners))))).
    apply (bool_decide_unpack _). vm_compute. exact I.
Defined.

Lemma off_undoes_on_witness :
  listeners
    (state_of (off "SceneCreated" (UserListener 7)
       (state_of (on "SceneCreated" (UserListener 7)
          (after example_id example_listener 0 with_listeners)))))
  = listeners (after example_id example_listener 0 with_listeners)
  /\ state_of (off "ExitStarted" (UserListener 7)
                 (after example_id example_listener 0 with_listeners))
     = after example_id example_listener 0 with_listeners.
Proof.
  split.
  - apply (off_undoes_on example_id example_listener 0).
    + apply reachable_run, reachable_new.
    + apply (bool_decide_unpack _). vm_compute. exact I.
  - apply (off_undoes_on example_id example_listener 0).
    + apply reachable_run, reachable_new.
    + apply (bool_decide_unpack _). vm_compute. exact I.
Defined.


Lemma removeAllListeners_scope_witness :
  listeners (state_of (removeAllListeners (Some "")
                         (after example_id example_listener 0 with_listeners))) = ∅
  /\ registered "ExitStarted"
       (state_of (removeAllListeners (Some "ExitStarted")
                    (after example_id example_listener 0 with_listeners))) = [].
Proof.
  destruct (removeAllListeners_scope example_listener 0) as [H1 H2]. split.
  - apply (H2 (Some "") "ExitStarted" JUndefined). reflexivity.
  - apply H1. reflexivity.
Defined.


Lemma call_sends_request_witness :
  last_sent (state_of (call example_id "GetVersion" None
                         (after example_id example_listener 0 established)))
  = Some (Request {| request_requestType := "GetVersion";
                     request_requestId := "req-0";
                     request_requestData := None |}).
Proof.
  unfold last_sent.
  rewrite (proj1 (call_sends_request example_id "GetVersion" None
                    (after example_id example_listener 0 established)
                    0 identified_socket eq_refl eq_refl eq_refl eq_refl)).
  vm_compute. reflexivity.
Defined.

Lemma callBatch_sends_batch_witness :
  last_sent (state_of (callBatch example_id two_calls (halting true)
                         (after example_id example_listener 0 established)))
  = Some (RequestBatch
            {| batch_requestId := "req-0";
               haltOnFailure := Some true;
               executionType := None;
               requests := [ {| member_requestType := "GetVersion";
                                member_requestId := Some "req-1";
                                member_requestData := None |};
                             {| member_requestType := "GetStats";
                                member_requestId := Some "req-2";
                                member_requestData := None |} ] |}).
Proof.
  unfold last_sent.
  rewrite (proj1 (callBatch_sends_batch example_id two_calls (halting true)
                    (after example_id example_listener 0 established)
                    0 identified_socket eq_refl eq_refl eq_refl eq_refl)).
  vm_compute. reflexivity.
Defined.


Lemma connect_accepts_witness :
  reconnectDelay
    (after example_id example_listener 0
       [ApiConnect default_url None; SocketOpen 0; SocketClose 0 1006 ""; TimerFired 0])
  = 2000%Z
  /\ reconnectDelay
       (state_of (connect default_url None
          (after example_id example_listener 0
             [ApiConnect default_url None; SocketOpen 0; SocketClose 0 1006 "";
              TimerFired 0])))
     = 1000%Z
  /\ ws (state_of (connect default_url None
          (after example_id example_listener 0
             [ApiConnect default_url None; SocketOpen 0; SocketClose 0 1006 "";
              TimerFired 0])))
     = Some 1.
Proof.
  destruct (connect_accepts default_url None
              (after example_id example_listener 0
                 [ApiConnect default_url None; SocketOpen 0; SocketClose 0 1006 "";
                  TimerFired 0]) eq_refl)
    as (_ & _ & Hw & _ & _ & Hd & _).
  split; [vm_compute; reflexivity|]. split; [exact Hd|exact Hw].
Defined.

Lemma connect_refuses_second_witness :
  connect default_url None (after example_id example_listener 0 established)
  = Ok 1 (set_connects
            (connects (after example_id example_listener 0 established)
             ++ [Rejected (JErr (Error "Already connected or connecting"))])
            (after example_id example_listener 0 established)).
Proof.
  apply (proj2 (connect_refuses_second default_url None
                  (new_OBSWebSocket default_options))
           default_url None (after example_id example_listener 0 established) 0).
  reflexivity.
Defined.

Lemma identify_without_authentication_witness :
  sockets (state_of (helloHandler (Some "unused") 0 (js_of_hello hello_plain)
                       (after example_id example_listener 0 opened)))
  = [identified_socket].
Proof.
  rewrite (proj1 (identify_without_authentication hello_plain (Some "unused") 0
                    (after example_id example_listener 0 opened) 0 open_socket
                    eq_refl eq_refl eq_refl eq_refl)).
  vm_compute. reflexivity.
Defined.


Lemma socket_error_keeps_session_witness :
  connected (state_of (handleError example_listener 0
                         (after example_id example_listener 0 listening)))
  = connected (after example_id example_listener 0 listening)
  /\ futures (state_of (handleError example_listener 0
                          (after example_id example_listener 0 listening)))
     = futures (after example_id example_listener 0 listening).
Proof.
  destruct (socket_error_keeps_session example_listener 0
              (after example_id example_listener 0 listening))
    as (_ & _ & _ & H1 & _ & H2 & _).
  - apply wf_names, (reachable_wf example_id example_listener 0).
    apply reachable_run, reachable_new.
  - split; [exact H1 | exact H2].
Defined.

Lemma reconnect_signal_witness :
  emitted (step example_id example_listener 0 (TimerFired 0)
             (after example_id example_listener 0 armed))
  = emitted (after example_id example_listener 0 armed)
    ++ [("Reconnecting", JUndefined); ("obs:reconnect", JUndefined)]
  /\ ws (step example_id example_listener 0 (TimerFired 0)
           (after example_id example_listener 0 armed))
     = ws (after example_id example_listener 0 armed).
Proof.
  destruct (reconnect_signal example_id example_listener 0 0 1000
              (after example_id example_listener 0 armed))
    as (H1 & _ & _ & H2 & _).
  - apply wf_names, (reachable_wf example_id example_listener 0).
    apply reachable_run, reachable_new.
  - vm_compute. reflexivity.
  - split; [exact H1 | exact H2].
Defined.


Lemma at_most_one_timer_armed_witness :
  1 = 1 /\ reconnectTimer (after example_id example_listener 0 back_to_back) = Some 1.
Proof.
  apply (at_most_one_timer_armed example_id example_listener 0
           (after example_id example_listener 0 back_to_back) 1 1 1000 1000).
  - apply reachable_run, reachable_new.
  - vm_compute. reflexivity.
  - vm_compute. reflexivity.
Defined.

Lemma reconnect_delay_bounds_witness :
  (1000 <= reconnectDelay (after example_id example_listener 0 redial) <= 30000)%Z.
Proof.
  apply (reconnect_delay_bounds example_id example_listener 0).
  apply reachable_run, reachable_new.
Defined.



Lemma close_leaves_connect_pending_witness :
  connects (state_of (handleClose example_listener 0 1006 ""
                        (after example_id example_listener 0 opened)))
  = [Pending].
Proof.
  rewrite (proj1 (close_leaves_connect_pending example_listener 0
                    (after example_id example_listener 0 opened)
                    (wf_names _ (reachable_wf example_id example_listener 0 _
                       (reachable_run example_id example_listener 0 opened _
                          (reachable_new example_id example_listener 0
                             default_options)))))).
  vm_compute. reflexivity.
Defined.

Lemma error_rejects_handshake_witness :
  connects (state_of (handleError example_listener 0
                        (after example_id example_listener 0 handshaking))) !! 0
  = Some (Rejected (JErr (Error "WebSocket error"))).
Proof.
  refine (proj1 (error_rejects_handshake example_listener 0 2 0
                   (after example_id example_listener 0 handshaking) _ _ _)).
  - apply wf_names, (reachable_wf example_id example_listener 0).
    apply reachable_run, reachable_new.
  - apply (bool_decide_unpack _). vm_compute. exact I.
  - vm_compute. reflexivity.
Defined.

Lemma disconnect_closes_socket_witness :
  sockets (state_of (disconnect example_listener 0
                       (after example_id example_listener 0 established)))
  = [close_called 1000 "Client disconnect" identified_socket].
Proof.
  destruct (disconnect_closes_socket example_listener 0
              (after example_id example_listener 0 established))
    as (_ & H & _).
  - apply wf_names, (reachable_wf example_id example_listener 0).
    apply reachable_run, reachable_new.
  - rewrite (H 0 identified_socket eq_refl eq_refl). vm_compute. reflexivity.
Defined.



Lemma only_reidentify_throws_witness :
  exists s',
    exec example_id example_listener 0 (SocketMessage 0 (InvalidJSON "Unexpected end"))
      (after example_id example_listener 0 listening)
    = Ok tt s'.
Proof.
  apply (proj2 (proj2 (proj2 (only_reidentify_throws example_id example_listener 0)))).
  intros subs H. discriminate H.
Defined.
